(** * Video generation proxy: a model of [server.cjs]

    The development embeds the [/generate-video] handler of [server.cjs]
    together with the three provider functions it dispatches to
    ([generateVeoVideo], [generateHedraVideo], [generateKlingVideo]) and proves
    properties of request normalization, of the Veo polling loop and of the
    extraction of the generated video from a completed operation.

    Conventions of the embedding.
    - A field of the JSON request body is an [option string]: [None] stands
      for an absent ([undefined]) field, [Some s] for a field holding the
      string [s].  Bodies with fields of other JSON types are outside the
      model.  A string is a sequence of 8-bit characters.
    - Remote calls are answered by a [World] of oracles; every call, and
      every pause, is recorded in order in a trace of [Event]s.  A reply that
      is [ok] carries its parsed JSON body, whose members have the types the
      code reads them at.  The token request of the authentication library
      is answered by the world as well, with a token or with an exception.
    - An access [table[key]] to an object literal sees the members the
      literal inherits from [Object.prototype]: the model keeps such a
      member as [JS.Inherited name].
    - A JavaScript exception is the outcome [Throw message]; the handler
      turns it into the answer with status 500.
    - The log lines and the request identifier, which only labels them, are
      left out. *)

From Stdlib Require Import String Ascii List Arith ZArith Lia Bool.
From Stdlib Require Import DecimalString.
From Stdlib Require Strings.Byte.
Import ListNotations.
Local Open Scope list_scope.
Local Open Scope string_scope.

(** ** JavaScript string primitives *)

Module JS.

(** The double-quote character, code 34. *)
Definition dquote : string := String "034"%char EmptyString.

(** [s.startsWith(p)] *)
Fixpoint starts_with (p s : string) : bool :=
  match p, s with
  | EmptyString, _ => true
  | String _ _, EmptyString => false
  | String a p', String b s' => Ascii.eqb a b && starts_with p' s'
  end.

(** [s.substring(n)] *)
Fixpoint drop (n : nat) (s : string) : string :=
  match n, s with
  | O, _ => s
  | S _, EmptyString => EmptyString
  | S n', String _ s' => drop n' s'
  end.

(** [s.includes(sep)] for a non-empty [sep]. *)
Fixpoint contains (sep s : string) : bool :=
  starts_with sep s ||
  match s with
  | EmptyString => false
  | String _ s' => contains sep s'
  end.

(** [s.split(sep)] for a non-empty separator [sep], as the left-to-right scan
    of ECMAScript's String.prototype.split: at each position the separator is
    tried; on a match the current piece is closed and the scan resumes after
    the separator ([skip] counts the characters of a matched separator still
    to be passed over); after the last character the current piece is closed.
    The result is never empty. *)
Fixpoint split_from (sep : string) (skip : nat) (s : string) : list string :=
  match s with
  | EmptyString => [EmptyString]
  | String c s' =>
      match skip with
      | S k => split_from sep k s'
      | O =>
          if starts_with sep s
          then EmptyString :: split_from sep (String.length sep - 1) s'
          else match split_from sep 0 s' with
               | piece :: rest => String c piece :: rest
               | [] => [String c EmptyString]
               end
      end
  end.

Definition split (sep s : string) : list string := split_from sep 0 s.

(** [s.replace(pat, rep)] for a non-empty string pattern [pat] and a
    replacement without dollar patterns: only the first occurrence is
    replaced. *)
Fixpoint replace (pat rep s : string) : string :=
  match s with
  | EmptyString => EmptyString
  | String c s' =>
      if starts_with pat s
      then rep ++ drop (String.length pat) s
      else String c (replace pat rep s')
  end.

(** Truthiness of a value that is absent or a string: only a non-empty string
    is truthy. *)
Definition truthy (v : option string) : bool :=
  match v with
  | Some (String _ _) => true
  | _ => false
  end.

(** A value that is truthy: present and not the empty string. *)
Definition nonEmpty (v : option string) : option string :=
  match v with
  | Some (String c s) => Some (String c s)
  | _ => None
  end.

(** [v === 'literal'] *)
Definition strict_eq (v : option string) (literal : string) : bool :=
  match v with
  | Some s => String.eqb s literal
  | None => false
  end.

(** [a || b] *)
Definition or_else (a b : option string) : option string :=
  if truthy a then a else b.

(** [a || 'literal'] *)
Definition or_string (a : option string) (d : string) : string :=
  match a with
  | Some (String c s) => String c s
  | _ => d
  end.

(** Template-literal rendering of a value that may be [undefined]. *)
Definition render (v : option string) : string :=
  match v with
  | Some s => s
  | None => "undefined"
  end.

(** Template-literal rendering of a non-negative integer below 10^21,
    which is printed with all its digits. *)
Definition render_nat (n : nat) : string :=
  NilZero.string_of_uint (Nat.to_uint n).

(** What an access [table[key]] to an object literal can yield besides
    [undefined]: an own member, or the member of that name inherited from
    [Object.prototype]. *)
Inductive Value (A : Type) :=
| Own (v : A)
| Inherited (name : string).
Arguments Own {A} v.
Arguments Inherited {A} name.

(** The names of the members of [Object.prototype]. *)
Definition objectPrototypeMembers : list string :=
  [ "constructor"; "__defineGetter__"; "__defineSetter__"; "hasOwnProperty";
    "__lookupGetter__"; "__lookupSetter__"; "isPrototypeOf";
    "propertyIsEnumerable"; "toString"; "valueOf"; "__proto__";
    "toLocaleString" ].

Definition inherited (key : string) : bool :=
  existsb (String.eqb key) objectPrototypeMembers.

(** The own member of a table, an object literal with string keys. *)
Fixpoint lookup {A : Type} (table : list (string * A)) (key : string)
  : option A :=
  match table with
  | [] => None
  | (k, v) :: rest => if String.eqb k key then Some v else lookup rest key
  end.

(** [table[key]] *)
Definition access {A : Type} (table : list (string * A)) (key : string)
  : option (Value A) :=
  match lookup table key with
  | Some v => Some (Own v)
  | None => if inherited key then Some (Inherited key) else None
  end.

(** [a || 'literal'] for the result of an access to a table of strings: an
    inherited member, a function or an object, is truthy. *)
Definition or_literal (a : option (Value string)) (d : string)
  : Value string :=
  match a with
  | Some (Own EmptyString) => Own d
  | Some v => v
  | None => Own d
  end.

(** [a || b] for two accesses to a table of strings. *)
Definition or_access (a b : option (Value string))
  : option (Value string) :=
  match a with
  | Some (Own EmptyString) => b
  | Some v => Some v
  | None => b
  end.

(** The text of an inherited member in a template literal, as Node prints
    it: [__proto__] is the prototype object, [constructor] is the function
    [Object], every other member is a native function of its own name. *)
Definition memberText (name : string) : string :=
  if String.eqb name "__proto__" then "[object Object]"
  else "function "
       ++ (if String.eqb name "constructor" then "Object" else name)
       ++ "() { [native code] }".

(** Template-literal rendering of the result of an access to a table of
    strings. *)
Definition show (v : option (Value string)) : string :=
  match v with
  | Some (Own s) => s
  | Some (Inherited name) => memberText name
  | None => "undefined"
  end.

(** The double nearest to a natural number below 2^1024, ties to even: a
    double holds 53 significant bits.  The sum of two doubles is the double
    nearest to their exact sum. *)
Definition toDouble (x : N) : N :=
  let bits := N.size x in
  if (bits <=? 53)%N then x
  else
    let sh := (bits - 53)%N in
    let q := N.shiftr x sh in
    let r := N.land x (N.ones sh) in
    let half := N.shiftl 1 (sh - 1) in
    let q' :=
      if (r <? half)%N then q
      else if (half <? r)%N then (q + 1)%N
      else if N.even q then q else (q + 1)%N in
    N.shiftl q' sh.

(** [a + b] on two numbers that hold natural numbers. *)
Definition add (a b : N) : N := toDouble (a + b).

(** [array[index]] for an index that holds a natural number. *)
Definition at_index {A : Type} (array : list A) (index : N) : option A :=
  if (index <? N.of_nat (List.length array))%N
  then nth_error array (N.to_nat index)
  else None.

End JS.

Notation "a '|||' b" := (JS.or_else a b) (at level 50, left associativity).

(** ** The request body of [/generate-video] *)

Record Request := mkRequest {
  scriptText : option string;
  direction : option string;
  referenceImage : option string;
  prompt : option string;
  imageUrl : option string;
  country : option string;
  provider : option string;
  videoStyle : option string;
  voiceAccent : option string;
  styleParams : option string;
  model : option string
}.

(** The two literal markers of the legacy prompt convention. *)
Definition scriptMarker : string := ". Script: " ++ JS.dquote.
Definition styleMarker : string := JS.dquote ++ ". Style:".

(** [prompt.split(scriptMarker)[1]?.split(styleMarker)[0]] *)
Definition promptScript (p : string) : option string :=
  match nth_error (JS.split scriptMarker p) 1 with
  | Some piece => nth_error (JS.split styleMarker piece) 0
  | None => None
  end.

(** [prompt.split(scriptMarker)[0]] *)
Definition promptDirection (p : string) : option string :=
  nth_error (JS.split scriptMarker p) 0.

Definition finalScriptText (r : Request) : string :=
  JS.or_string
    (scriptText r
     ||| (match prompt r with
          | Some p => if JS.truthy (Some p) then promptScript p else None
          | None => None
          end)
     ||| prompt r)
    EmptyString.

Definition finalDirection (r : Request) : string :=
  JS.or_string
    (direction r
     ||| (match prompt r with
          | Some p => if JS.truthy (Some p) then promptDirection p else None
          | None => None
          end))
    EmptyString.

Definition finalReferenceImage (r : Request) : option string :=
  referenceImage r ||| imageUrl r.

(** ** Normalization and validation (lines 338-365 of [server.cjs]) *)

(** The canonical request handed to a provider. *)
Record Normalized := mkNormalized {
  n_scriptText : string;
  n_direction : string;
  n_referenceImage : string
}.

(** The two 400 answers of the handler. *)
Definition missingScript : string :=
  "Missing required fields: scriptText or prompt".
Definition missingImage : string :=
  "Missing required fields: referenceImage or imageUrl".

Inductive Validation :=
| Accepted (n : Normalized)
| MissingField (error : string).

Definition normalize (r : Request) : Validation :=
  match finalScriptText r with
  | EmptyString => MissingField missingScript
  | String _ _ =>
      match finalReferenceImage r with
      | Some (String c img) =>
          Accepted (mkNormalized (finalScriptText r) (finalDirection r)
                                 (String c img))
      | _ => MissingField missingImage
      end
  end.

(** ** The reference image (lines 441-451) *)

(** The class [\w] of a regular expression without flags. *)
Definition is_word_char (c : ascii) : bool :=
  let n := nat_of_ascii c in
  (((48 <=? n) && (n <=? 57)) || ((65 <=? n) && (n <=? 90))
   || ((97 <=? n) && (n <=? 122)) || (n =? 95))%nat.

(** The longest run of word characters at the head of a string, and what
    follows it. *)
Fixpoint span_word (s : string) : string * string :=
  match s with
  | EmptyString => (EmptyString, EmptyString)
  | String c s' =>
      if is_word_char c
      then let (w, r) := span_word s' in (String c w, r)
      else (EmptyString, s)
  end.

(** A match of [/^data:(image\/\w+);base64,/]: the text of group 1 and the
    text after the match. The greedy [\w+] is followed by a semicolon, which
    is no word character, so the only candidate is the longest run. *)
Definition matchDataImage (s : string) : option (string * string) :=
  if JS.starts_with "data:image/" s then
    let (w, r) := span_word (JS.drop 11 s) in
    match w with
    | EmptyString => None
    | String _ _ =>
        if JS.starts_with ";base64," r
        then Some ("image/" ++ w, JS.drop 8 r)
        else None
    end
  else None.

Definition mimeTypeOf (referenceImage : string) : string :=
  match matchDataImage referenceImage with
  | Some (mime, _) => mime
  | None => "image/png"
  end.

(** [referenceImage.replace(/^data:image\/\w+;base64,/, '')] *)
Definition base64DataOf (referenceImage : string) : string :=
  match matchDataImage referenceImage with
  | Some (_, rest) => rest
  | None => referenceImage
  end.

Definition invalidImage : string := "Invalid reference image data".

(** ** The fixed tables of [generateVeoVideo] (lines 453-501) *)

Definition noOverlays : string :=
  " NO text overlays, NO titles, NO captions, NO subtitles on screen - clean visuals only".

Definition styleModifiers : list (string * string) :=
  [ ("UGC Talking",
     "Authentic user-generated content style, selfie camera angle, natural lighting, casual setting, direct eye contact with camera."
     ++ noOverlays);
    ("Narrative Voiceover",
     "Cinematic storytelling style, smooth camera movements, establishing shots, documentary aesthetic, ambient lighting."
     ++ noOverlays);
    ("Cinematic",
     "High-end commercial production, dramatic cinematic lighting, professional cinematography, premium aesthetic, shallow depth of field."
     ++ noOverlays) ].

(** [styleModifiers[videoStyle] || styleModifiers['UGC Talking']] *)
Definition styleModifier (videoStyle : string) : option (JS.Value string) :=
  JS.or_access (JS.access styleModifiers videoStyle)
    (JS.access styleModifiers "UGC Talking").

Definition seedMap : list (string * Z) :=
  [ ("american", 12345); ("british", 23456); ("australian", 34567);
    ("indian", 45678); ("south-african", 56789);
    ("american-female", 67890); ("british-female", 78901);
    ("australian-female", 89012); ("indian-female", 90123);
    ("south-african-female", 11111) ]%Z.

(** [seedMap[voiceAccent] || 12345] *)
Definition voiceSeed (voiceAccent : string) : JS.Value Z :=
  match JS.access seedMap voiceAccent with
  | Some (JS.Own n) => if (n =? 0)%Z then JS.Own 12345%Z else JS.Own n
  | Some (JS.Inherited name) => JS.Inherited name
  | None => JS.Own 12345%Z
  end.

Definition voiceDescriptions : list (string * string) :=
  [ ("american", "American accent"); ("british", "British accent");
    ("australian", "Australian accent"); ("indian", "Indian accent");
    ("south-african", "South African accent");
    ("american-female", "American female accent");
    ("british-female", "British female accent");
    ("australian-female", "Australian female accent");
    ("indian-female", "Indian female accent");
    ("south-african-female", "South African female accent") ].

(** [voiceDescriptions[voiceAccent] || 'American accent'] *)
Definition voiceDescription (voiceAccent : string) : JS.Value string :=
  JS.or_literal (JS.access voiceDescriptions voiceAccent) "American accent".

Definition negativeVoiceMap : list (string * string) :=
  [ ("south-african",
     "American accent, British accent, Australian accent, Indian accent");
    ("american",
     "British accent, Australian accent, Indian accent, South African accent");
    ("british",
     "American accent, Australian accent, Indian accent, South African accent");
    ("australian",
     "American accent, British accent, Indian accent, South African accent");
    ("indian",
     "American accent, British accent, Australian accent, South African accent") ].

(** [negativeVoiceMap[voiceAccent.replace('-female', '')] || ''] *)
Definition negativeVoice (voiceAccent : string) : JS.Value string :=
  JS.or_literal
    (JS.access negativeVoiceMap
       (JS.replace "-female" EmptyString voiceAccent))
    EmptyString.

(** ** The Veo request body (lines 503-521)

    The body is the object handed to [JSON.stringify]; its [seed] and its
    [negativePrompt] are what the tables yield. *)

Record VeoImage := mkVeoImage {
  image_bytesBase64Encoded : string;
  image_mimeType : string
}.

Record VeoInstance := mkVeoInstance {
  instance_prompt : string;
  instance_image : VeoImage
}.

Record VeoParameters := mkVeoParameters {
  aspectRatio : string;
  resizeMode : string;
  sampleCount : nat;
  durationSeconds : nat;
  resolution : string;
  personGeneration : string;
  seed : JS.Value Z;
  negativePrompt : JS.Value string
}.

Record VeoRequestBody := mkVeoRequestBody {
  instances : list VeoInstance;
  parameters : VeoParameters
}.

Definition veoPrompt (scriptText direction : string) (country : option string)
    (videoStyle voiceAccent : string) : string :=
  "The SAME character from the image speaks with a clear "
  ++ JS.show (Some (voiceDescription voiceAccent))
  ++ " in ALL segments. They say: " ++ JS.dquote ++ scriptText ++ JS.dquote
  ++ ". " ++ direction ++ ". "
  ++ JS.show (styleModifier videoStyle)
  ++ ". Setting: " ++ JS.or_string country "United States"
  ++ ". 8 seconds duration. Vertical 9:16 aspect ratio video.".

Definition requestBody (scriptText direction referenceImage : string)
    (country : option string) (videoStyle voiceAccent : string)
  : VeoRequestBody :=
  mkVeoRequestBody
    [ mkVeoInstance
        (veoPrompt scriptText direction country videoStyle voiceAccent)
        (mkVeoImage (base64DataOf referenceImage) (mimeTypeOf referenceImage)) ]
    (mkVeoParameters "9:16" "crop" 1 8 "720p" "allow_adult"
       (voiceSeed voiceAccent) (negativeVoice voiceAccent)).

(** ** Replies of the remote services *)

(** An HTTP reply: [response.ok] with its parsed JSON body, or a status
    outside 200-299 with its body. *)
Inductive Http (A E : Type) :=
| HttpOk (json : A)
| HttpError (status : nat) (body : E).
Arguments HttpOk {A E} json.
Arguments HttpError {A E} status body.

(** The [error] member of an operation. *)
Record RemoteError := mkRemoteError { message : option string }.

(** The reply to the submit call: [{name, error?}]. *)
Record Operation := mkOperation {
  name : option string;
  operation_error : option RemoteError
}.

(** One element of [response.videos] or [response.predictions]. *)
Record VideoEntry := mkVideoEntry {
  gcsUri : option string;
  bytesBase64Encoded : option string
}.

Record ResponseBody := mkResponseBody {
  videos : option (list VideoEntry);
  predictions : option (list VideoEntry)
}.

(** The reply to a poll call: [{done, error?, response?}]. *)
Record PollData := mkPollData {
  done : bool;
  poll_error : option RemoteError;
  response : option ResponseBody
}.

(** The outcome of [fetch(uri)] followed by [buffer()]: the bytes of the
    object, a status outside 200-299, or an exception of [fetch]. *)
Inductive FetchReply :=
| FetchOk (buffer : list Byte.byte)
| FetchStatus (status : nat)
| FetchThrows (error : string).

(** The body of a Hedra reply that is not [ok], as [response.json()] and
    the read of [error.message] yield it: an object with an optional
    message, or the exception of the read when the body is no such JSON. *)
Inductive HedraFailure :=
| ErrorJson (message : option string)
| ErrorUnreadable (exception : string).

(** The loaded service account: the member the code reads. *)
Record ServiceAccount := mkServiceAccount {
  project_id : option string
}.

(** The outcome of [auth.getClient()] followed by
    [client.getAccessToken()]: the token, or the exception of the library. *)
Inductive AuthReply :=
| AuthToken (token : string)
| AuthThrows (error : string).

(** The reply of the Hedra status endpoint. *)
Record HedraStatus := mkHedraStatus {
  status : option string;
  video_url : option string
}.

(** Every remote call, and every pause, of a request. *)
Inductive Event :=
| VeoSubmit (endpoint bearer : string) (body : VeoRequestBody)
| Sleep (ms : Z)
| VeoPoll (endpoint bearer operationName : string)
| Fetch (uri : string)
| HedraCharacter (image model : string)
| HedraVideo (character_id : option string) (audio_url motion : string)
| HedraPoll (videoId : option string).

(** The process environment and the remote services. [veoPoll w k] and
    [hedraStatus w k] answer the [k]-th poll of a request (from 1, resp. 0). *)
Record World := mkWorld {
  SERVICE_ACCOUNT : option ServiceAccount;
  getAccessToken : AuthReply;
  VEO_ACCESS_TOKEN : option string;
  VEO_PROJECT_ID : option string;
  KLING_API_KEY : option string;
  veoSubmit : VeoRequestBody -> Http Operation string;
  veoPoll : nat -> Http PollData string;
  fetch : string -> FetchReply;
  hedraCharacters : string -> string -> Http (option string) HedraFailure;
  hedraVideos : option string -> Http (option string) HedraFailure;
  hedraStatus : nat -> Http HedraStatus unit
}.

(** ** Computations: exceptions and the trace of calls *)

Inductive Outcome (A : Type) :=
| Return (a : A)
| Throw (error : string).
Arguments Return {A} a.
Arguments Throw {A} error.

Definition Run (A : Type) : Type := list Event -> Outcome A * list Event.

Definition ret {A : Type} (a : A) : Run A := fun tr => (Return a, tr).

Definition throw {A : Type} (error : string) : Run A :=
  fun tr => (Throw error, tr).

Definition bind {A B : Type} (m : Run A) (k : A -> Run B) : Run B :=
  fun tr =>
    match m tr with
    | (Return a, tr') => k a tr'
    | (Throw e, tr') => (Throw e, tr')
    end.

Definition call (e : Event) : Run unit :=
  fun tr => (Return tt, (tr ++ [e])%list).

Notation "x <- m ;; k" := (bind m (fun x => k))
  (at level 61, m at next level, right associativity).
Notation "m ;; k" := (bind m (fun _ => k))
  (at level 61, right associativity).

(** ** [Buffer.toString('base64')] *)

Definition base64Alphabet : list ascii :=
  list_ascii_of_string
    "ABCDEFGHIJKLMNOPQRSTUVWXYZabcdefghijklmnopqrstuvwxyz0123456789+/".

Definition sextet (i : nat) : ascii := nth (i mod 64) base64Alphabet "/"%char.

Definition pad : string := "=".

Fixpoint toBase64 (buffer : list Byte.byte) : string :=
  match buffer with
  | [] => EmptyString
  | [a] =>
      let a := Byte.to_nat a in
      String (sextet (a / 4)) (String (sextet ((a mod 4) * 16)) (pad ++ pad))
  | [a; b] =>
      let a := Byte.to_nat a in
      let b := Byte.to_nat b in
      String (sextet (a / 4))
        (String (sextet ((a mod 4) * 16 + b / 16))
           (String (sextet ((b mod 16) * 4)) pad))
  | a :: b :: c :: rest =>
      let a := Byte.to_nat a in
      let b := Byte.to_nat b in
      let c := Byte.to_nat c in
      String (sextet (a / 4))
        (String (sextet ((a mod 4) * 16 + b / 16))
           (String (sextet ((b mod 16) * 4 + c / 64))
              (String (sextet (c mod 64)) (toBase64 rest))))
  end.

(** ** Extraction of the video from a completed operation (lines 617-679) *)

Definition dataUriPrefix : string := "data:video/mp4;base64,".

Definition noVideoData : string := "No video data in completed operation".

(** [try { fetch(uri) ... return data URI } catch { }]: the data URI of the
    fetched bytes, or nothing when the fetch fails. *)
Definition fetchVideo (w : World) (uri : string) : Run (option string) :=
  call (Fetch uri) ;;
  match fetch w uri with
  | FetchOk buffer => ret (Some (dataUriPrefix ++ toBase64 buffer))
  | FetchStatus _ => ret None
  | FetchThrows _ => ret None
  end.

(** The block on [response.videos]: [Some] is an early [return]. *)
Definition fromVideos (w : World) (response : option ResponseBody)
  : Run (option string) :=
  match match response with Some r => videos r | None => None end with
  | Some (videoResult :: _) =>
      fetched <- match gcsUri videoResult with
                 | Some (String c u) => fetchVideo w (String c u)
                 | _ => ret None
                 end ;;
      match fetched with
      | Some uri => ret (Some uri)
      | None =>
          match bytesBase64Encoded videoResult with
          | Some (String c b) => ret (Some (dataUriPrefix ++ String c b))
          | _ => ret None
          end
      end
  | _ => ret None
  end.

(** The block on [response.predictions]. *)
Definition fromPredictions (w : World) (response : option ResponseBody)
  : Run (option string) :=
  match match response with Some r => predictions r | None => None end with
  | Some (videoResult :: _) =>
      match bytesBase64Encoded videoResult with
      | Some (String c b) => ret (Some (dataUriPrefix ++ String c b))
      | _ =>
          match gcsUri videoResult with
          | Some (String c u) => fetchVideo w (String c u)
          | _ => ret None
          end
      end
  | _ => ret None
  end.

Definition extractVideo (w : World) (response : option ResponseBody)
  : Run string :=
  found <- fromVideos w response ;;
  match found with
  | Some uri => ret uri
  | None =>
      found <- fromPredictions w response ;;
      match found with
      | Some uri => ret uri
      | None => throw noVideoData
      end
  end.

(** ** The Veo polling loop (lines 575-686) *)

Definition maxAttempts : nat := 60.

Definition timedOut : string := "Veo video generation timed out".

Definition generationFailed (e : RemoteError) : string :=
  "Veo generation failed: " ++ JS.render (message e).

Definition pollFailed (status : nat) (pollError : string) : string :=
  "Poll error: " ++ JS.render_nat status ++ " - " ++ pollError.

(** [while (attempts < maxAttempts) { ... }], by recursion on
    [remaining = maxAttempts - attempts]: the loop is entered with
    [remaining = maxAttempts] and [attempts = 0], and each turn that does not
    leave the loop adds one to [attempts]. *)
Fixpoint pollLoop (w : World) (pollEndpoint accessToken operationName : string)
    (remaining attempts : nat) : Run string :=
  match remaining with
  | O => throw timedOut
  | S remaining' =>
      call (Sleep 5000) ;;
      let attempts := S attempts in
      call (VeoPoll pollEndpoint accessToken operationName) ;;
      match veoPoll w attempts with
      | HttpError status pollError => throw (pollFailed status pollError)
      | HttpOk pollData =>
          if done pollData then
            match poll_error pollData with
            | Some e => throw (generationFailed e)
            | None => extractVideo w (response pollData)
            end
          else
            pollLoop w pollEndpoint accessToken operationName
              remaining' attempts
      end
  end.

(** ** [generateVeoVideo] (lines 406-687) *)

Definition noAuthentication : string :=
  "Veo video generation requires service account or VEO_ACCESS_TOKEN".

Definition noOperationName : string :=
  "No operation name returned from Veo API".

(** The access token and the project of the call (lines 409-432): with a
    service account the token is requested from the authentication library,
    whose exception ends the request, and the project is the [project_id]
    of the account, as the endpoint renders it; else they are the token and
    the project of the environment. *)
Definition credentials (w : World) : Run (string * string) :=
  match SERVICE_ACCOUNT w with
  | Some account =>
      match getAccessToken w with
      | AuthToken token => ret (token, JS.render (project_id account))
      | AuthThrows error => throw error
      end
  | None =>
      match VEO_ACCESS_TOKEN w with
      | Some (String c t) =>
          ret (String c t,
               JS.or_string (VEO_PROJECT_ID w) "gen-lang-client-0342836621")
      | _ => throw noAuthentication
      end
  end.

Definition modelName : string := "veo-3.1-fast-generate-001".

Definition modelUrl (projectId method : string) : string :=
  "https://us-central1-aiplatform.googleapis.com/v1/projects/" ++ projectId
  ++ "/locations/us-central1/publishers/google/models/" ++ modelName
  ++ ":" ++ method.

(** A default parameter value: used when the argument is [undefined]. *)
Definition defaultTo (v : option string) (d : string) : string :=
  match v with
  | Some s => s
  | None => d
  end.

Definition generateVeoVideo (w : World)
    (scriptText direction referenceImage : string)
    (country videoStyle voiceAccent styleParams : option string) : Run string :=
  let videoStyle := defaultTo videoStyle "UGC Talking" in
  let voiceAccent := defaultTo voiceAccent "american" in
  auth <- credentials w ;;
  let (accessToken, projectId) := auth in
  let endpoint := modelUrl projectId "predictLongRunning" in
  let base64Data := base64DataOf referenceImage in
  if (String.length base64Data <? 100)%nat then throw invalidImage
  else
    let body :=
      requestBody scriptText direction referenceImage country
        videoStyle voiceAccent in
    call (VeoSubmit endpoint accessToken body) ;;
    match veoSubmit w body with
    | HttpError status errorText =>
        throw ("Veo API error: " ++ JS.render_nat status ++ " - " ++ errorText)
    | HttpOk operation =>
        match operation_error operation with
        | Some e => throw ("Veo API error: " ++ JS.render (message e))
        | None =>
            match name operation with
            | Some (String c n) =>
                pollLoop w (modelUrl projectId "fetchPredictOperation")
                  accessToken (String c n) maxAttempts 0
            | _ => throw noOperationName
            end
        end
    end.

(** ** The Hedra and Kling providers (lines 689-806) *)

(** [generateTTS]: a fixed placeholder. *)
Definition generateTTS (text voiceAccent : string) : Run string :=
  ret "https://placeholder-audio-url.mp3".

(** [for (let i = 0; i < maxAttempts; i++) { ... }], by recursion on
    [remaining = maxAttempts - i]. *)
Fixpoint pollHedraVideo (w : World) (videoId : option string)
    (remaining i : nat) : Run string :=
  match remaining with
  | O => throw "Hedra video generation timed out"
  | S remaining' =>
      call (HedraPoll videoId) ;;
      match hedraStatus w i with
      | HttpError status _ => throw ("Poll error: " ++ JS.render_nat status)
      | HttpOk data =>
          match (if JS.strict_eq (status data) "completed"
                 then JS.nonEmpty (video_url data) else None) with
          | Some url => ret url
          | None =>
              if JS.strict_eq (status data) "failed"
              then throw "Hedra video generation failed"
              else
                call (Sleep 2000) ;;
                pollHedraVideo w videoId remaining' (S i)
          end
      end
  end.

Definition hedraError (what : string) (message : option string) (status : nat)
  : string :=
  "Hedra " ++ what ++ " error: " ++ JS.or_string message (JS.render_nat status).

Definition generateHedraVideo (w : World)
    (scriptText direction referenceImage : string) (country : option string)
    (model : string) (voiceAccent : option string) : Run string :=
  let voiceAccent := defaultTo voiceAccent "american" in
  let image := base64DataOf referenceImage in
  call (HedraCharacter image model) ;;
  match hedraCharacters w image model with
  | HttpError status (ErrorJson message) =>
      throw (hedraError "init" message status)
  | HttpError status (ErrorUnreadable exception) => throw exception
  | HttpOk characterId =>
      audioUrl <- generateTTS scriptText voiceAccent ;;
      call (HedraVideo characterId audioUrl direction) ;;
      match hedraVideos w characterId with
      | HttpError status (ErrorJson message) =>
          throw (hedraError "video" message status)
      | HttpError status (ErrorUnreadable exception) => throw exception
      | HttpOk video_id => pollHedraVideo w video_id 30 0
      end
  end.

Definition generateKlingVideo (w : World) : Run string :=
  if JS.truthy (KLING_API_KEY w)
  then throw "Kling integration not yet implemented"
  else throw "KLING_API_KEY not configured".

(** ** The handler of [POST /generate-video] (lines 331-403)

    The request identifier, which only labels log lines and the answer, is
    left out. *)

Record VideoResponse := mkVideoResponse {
  success : bool;
  videoUrl : string;
  videoBase64 : option string;
  response_provider : string
}.

Inductive Reply :=
| Json200 (body : VideoResponse)
| Json400 (error : string)
| Json500 (error : string).

(** [videoResult.startsWith('data:') ? videoResult.split(',')[1] : null] *)
Definition base64Of (videoResult : string) : option string :=
  if JS.starts_with "data:" videoResult
  then nth_error (JS.split "," videoResult) 1
  else None.

Definition dispatch (w : World) (r : Request) (n : Normalized) : Run string :=
  if JS.strict_eq (provider r) "hedra" then
    generateHedraVideo w (n_scriptText n) (n_direction n)
      (n_referenceImage n) (country r)
      (JS.or_string (model r) "character-3") (voiceAccent r)
  else if JS.strict_eq (provider r) "kling" then
    generateKlingVideo w
  else
    generateVeoVideo w (n_scriptText n) (n_direction n)
      (n_referenceImage n) (country r) (videoStyle r) (voiceAccent r)
      (styleParams r).

Definition postGenerateVideo (w : World) (r : Request) : Reply * list Event :=
  match normalize r with
  | MissingField error => (Json400 error, [])
  | Accepted n =>
      match dispatch w r n [] with
      | (Return videoResult, trace) =>
          (Json200 (mkVideoResponse true videoResult (base64Of videoResult)
                      (JS.or_string (provider r) "veo")),
           trace)
      | (Throw error, trace) => (Json500 error, trace)
      end
  end.

(** ** Vocabulary of the statements *)

(** [sep] matches at none of the positions of [d] in [d ++ rest]. *)
Fixpoint absent_before (sep d rest : string) : bool :=
  match d with
  | EmptyString => true
  | String _ d' =>
      negb (JS.starts_with sep (d ++ rest)) && absent_before sep d' rest
  end.

(** No proper non-empty suffix of [sep] is a prefix of [sep]: two occurrences
    of [sep] never overlap. *)
Definition border_free (sep : string) : Prop :=
  forall k, 0 < k < String.length sep ->
    JS.starts_with (JS.drop k sep) sep = false.


(** A request in the legacy convention: none of the canonical fields. *)
Definition legacyOnly (r : Request) : Prop :=
  scriptText r = None /\ direction r = None /\ referenceImage r = None.

(** A legacy request with the given prompt and image. *)
Definition legacyRequest (p img : string) : Request :=
  mkRequest None None None (Some p) (Some img) None None None None None None.

(** The element [0] of an array that is present and not empty. *)
Definition firstOf (l : option (list VideoEntry)) : option VideoEntry :=
  match l with
  | Some (e :: _) => Some e
  | _ => None
  end.

(** The base64 text of a remote object, when its fetch succeeds. *)
Definition fetched (w : World) (uri : string) : option string :=
  match fetch w uri with
  | FetchOk buffer => Some (toBase64 buffer)
  | _ => None
  end.

Definition videos_of (response : option ResponseBody) :=
  match response with Some r => videos r | None => None end.

Definition predictions_of (response : option ResponseBody) :=
  match response with Some r => predictions r | None => None end.

Definition andThen {A B : Type} (o : option A) (f : A -> option B) : option B :=
  match o with
  | Some a => f a
  | None => None
  end.

(** The four rules of the ordered search, in the words of the specification:
    each yields the base64 payload it finds. *)
Definition rule1 (w : World) (response : option ResponseBody) : option string :=
  andThen (firstOf (videos_of response)) (fun v =>
  andThen (JS.nonEmpty (gcsUri v)) (fetched w)).

Definition rule2 (response : option ResponseBody) : option string :=
  andThen (firstOf (videos_of response)) (fun v =>
  JS.nonEmpty (bytesBase64Encoded v)).

Definition rule3 (response : option ResponseBody) : option string :=
  andThen (firstOf (predictions_of response)) (fun p =>
  JS.nonEmpty (bytesBase64Encoded p)).

Definition rule4 (w : World) (response : option ResponseBody) : option string :=
  andThen (firstOf (predictions_of response)) (fun p =>
  andThen (JS.nonEmpty (gcsUri p)) (fetched w)).

(** First match wins. *)
Fixpoint firstMatch (rules : list (option string)) : option string :=
  match rules with
  | [] => None
  | Some payload :: _ => Some payload
  | None :: rest => firstMatch rest
  end.

Definition orderedSearch (w : World) (response : option ResponseBody)
  : Outcome string :=
  match firstMatch [rule1 w response; rule2 response; rule3 response;
                    rule4 w response] with
  | Some payload => Return (dataUriPrefix ++ payload)
  | None => Throw noVideoData
  end.

Definition fetchOf (uri : option string) : list Event :=
  match uri with
  | Some u => [Fetch u]
  | None => []
  end.

(** The remote fetches of the ordered search: the storage reference of rule 1
    whenever there is one, and that of rule 4 only when rules 1 to 3 did not
    match. *)
Definition searchFetches (w : World) (response : option ResponseBody)
  : list Event :=
  (fetchOf (andThen (firstOf (videos_of response))
              (fun v => JS.nonEmpty (gcsUri v)))
   ++ match firstMatch [rule1 w response; rule2 response; rule3 response] with
      | Some _ => []
      | None =>
          fetchOf (andThen (firstOf (predictions_of response))
                     (fun p => JS.nonEmpty (gcsUri p)))
      end)%list.

(** One turn of the Veo polling loop that finds the operation not done. *)
Definition pendingTurn (pollEndpoint accessToken operationName : string)
  : list Event :=
  [Sleep 5000; VeoPoll pollEndpoint accessToken operationName].

Definition isVeoPoll (e : Event) : bool :=
  match e with
  | VeoPoll _ _ _ => true
  | _ => false
  end.

Definition isVeoSubmit (e : Event) : bool :=
  match e with
  | VeoSubmit _ _ _ => true
  | _ => false
  end.

(** The number of poll calls of a trace. *)
Definition pollCount (trace : list Event) : nat :=
  List.length (filter isVeoPoll trace).

(** The [k]-th poll finds the operation not done. *)
Definition pendingAt (w : World) (k : nat) : Prop :=
  exists pollData, veoPoll w k = HttpOk pollData /\ done pollData = false.

(** The request goes to Veo: any provider but the two named ones. *)
Definition veoPath (r : Request) : bool :=
  negb (JS.strict_eq (provider r) "hedra")
  && negb (JS.strict_eq (provider r) "kling").

(** The data URI of a payload. *)
Definition asDataUri (payload : option string) : option string :=
  option_map (append dataUriPrefix) payload.


(** ** Concrete inputs *)

(** The prompt of the field-mapping test of [test-video.js]. *)
Definition legacyTest : string :=
  "Direction text. Script: " ++ JS.dquote ++ "Hello world" ++ JS.dquote
  ++ ". Style: UGC Talking.".

Definition testImage : string := "data:image/png;base64,abc123".



(** A response whose only member is [predictions[0].bytesBase64Encoded]. *)
Definition onlyPredictionBytes (b : string) : option ResponseBody :=
  Some (mkResponseBody None (Some [mkVideoEntry None (Some b)])).

(** A world with a service account, a given answer to the submit call and
    given answers to the polls; no object can be fetched and Hedra is down. *)
Definition mockWorld (submit : Http Operation string)
    (poll : nat -> Http PollData string) : World :=
  mkWorld (Some (mkServiceAccount (Some "project"))) (AuthToken "token")
    None None None
    (fun _ => submit) poll (fun _ => FetchStatus 404)
    (fun _ _ => HttpError 500 (ErrorJson None))
    (fun _ => HttpError 500 (ErrorJson None))
    (fun _ => HttpError 500 tt).

Definition started : Http Operation string :=
  HttpOk (mkOperation (Some "operations/1") None).

Definition stillRunning : PollData := mkPollData false None None.

Definition quotaExceeded : RemoteError := mkRemoteError (Some "quota exceeded").

(** Never done. *)
Definition pendingWorld : World := mockWorld started (fun _ => HttpOk stillRunning).

(** Done with an error at the 60th poll. *)
Definition failingWorld : World :=
  mockWorld started
    (fun k => if (k =? 60)%nat
              then HttpOk (mkPollData true (Some quotaExceeded) None)
              else HttpOk stillRunning).

(** The canonical request of the end-to-end scenario, for a given image. *)
Definition canonicalRequest (img : string) : Request :=
  mkRequest (Some "Hi") None (Some img) None None None (Some "veo") None None
    None None.

Definition tinyImage : string := "data:image/png;base64,AAAA".

(** An image whose base64 payload has 100 characters. *)
Definition largeImage : string :=
  "data:image/png;base64,"
  ++ "AAAAAAAAAAAAAAAAAAAAAAAAAAAAAAAAAAAAAAAAAAAAAAAAAA"
  ++ "AAAAAAAAAAAAAAAAAAAAAAAAAAAAAAAAAAAAAAAAAAAAAAAAAA".

(** The first poll of the scenario: done, with one inline video. *)
Definition firstPollDone : PollData :=
  mkPollData true None
    (Some (mkResponseBody (Some [mkVideoEntry None (Some "Zm9v")]) None)).

(** The backend of the scenario. *)
Definition scenarioWorld : World := mockWorld started (fun _ => HttpOk firstPollDone).

(** A world without any credential. *)
Definition noCredentialWorld : World :=
  mkWorld None (AuthThrows "no service account") None None None
    (fun _ => started) (fun _ => HttpOk firstPollDone) (fun _ => FetchStatus 404)
    (fun _ _ => HttpError 500 (ErrorJson None))
    (fun _ => HttpError 500 (ErrorJson None))
    (fun _ => HttpError 500 tt).

(** A Hedra backend whose first status reply is completed with a link. *)
Definition hedraWorld : World :=
  mkWorld None (AuthThrows "no service account") None None None
    (fun _ => HttpError 500 EmptyString) (fun _ => HttpError 500 EmptyString)
    (fun _ => FetchStatus 404)
    (fun _ _ => HttpOk (Some "character-1")) (fun _ => HttpOk (Some "video-1"))
    (fun _ => HttpOk (mkHedraStatus (Some "completed")
                        (Some "https://cdn.hedra.com/video-1.mp4"))).

Definition hedraRequest : Request :=
  mkRequest (Some "Hi") None (Some largeImage) None None None (Some "hedra")
    None None None None.

(** ** Vocabulary of the further statements *)

Definition isFetch (e : Event) : bool :=
  match e with
  | Fetch _ => true
  | _ => false
  end.

Definition isHedraPoll (e : Event) : bool :=
  match e with
  | HedraPoll _ => true
  | _ => false
  end.

(** The numbers of submit calls, of fetches and of Hedra polls of a trace. *)
Definition submitCount (trace : list Event) : nat :=
  List.length (filter isVeoSubmit trace).

Definition fetchCount (trace : list Event) : nat :=
  List.length (filter isFetch trace).

Definition hedraPollCount (trace : list Event) : nat :=
  List.length (filter isHedraPoll trace).

(** The body that [generateVeoVideo] submits for a normalized request. *)
Definition submittedBody (r : Request) (n : Normalized) : VeoRequestBody :=
  requestBody (n_scriptText n) (n_direction n) (n_referenceImage n)
    (country r) (defaultTo (videoStyle r) "UGC Talking")
    (defaultTo (voiceAccent r) "american").

(** One turn of the Hedra polling loop that does not end it. *)
Definition hedraTurn (videoId : option string) : list Event :=
  [HedraPoll videoId; Sleep 2000].

(** The link of a status reply that ends the Hedra polling with success. *)
Definition hedraFinished (data : HedraStatus) : option string :=
  if JS.strict_eq (status data) "completed"
  then JS.nonEmpty (video_url data)
  else None.

(** The [i]-th status reply neither completes with a link nor fails. *)
Definition hedraPendingAt (w : World) (i : nat) : Prop :=
  exists data,
    hedraStatus w i = HttpOk data
    /\ hedraFinished data = None
    /\ JS.strict_eq (status data) "failed" = false.

Definition placeholderAudio : string := "https://placeholder-audio-url.mp3".

(** Every character is a word character. *)
Fixpoint all_word (s : string) : bool :=
  match s with
  | EmptyString => true
  | String c s' => is_word_char c && all_word s'
  end.

(** What follows the submit call, by the reply to it (lines 545-566 and the
    loop). *)
Definition afterSubmit (w : World) (tok proj : string)
    (reply : Http Operation string) : Run string :=
  match reply with
  | HttpError st errorText =>
      throw ("Veo API error: " ++ JS.render_nat st ++ " - " ++ errorText)
  | HttpOk operation =>
      match operation_error operation with
      | Some e => throw ("Veo API error: " ++ JS.render (message e))
      | None =>
          match name operation with
          | Some (String c n) =>
              pollLoop w (modelUrl proj "fetchPredictOperation") tok
                (String c n) maxAttempts 0
          | _ => throw noOperationName
          end
      end
  end.

(** The request was accepted, goes to Veo with the credentials [tok] and
    [proj] and a valid image, and its submit call returned the operation
    name [op]. *)
Definition veoStarted (w : World) (r : Request) (n : Normalized)
    (tok proj op : string) : Prop :=
  normalize r = Accepted n
  /\ veoPath r = true
  /\ credentials w [] = (Return (tok, proj), [])
  /\ 100 <= String.length (base64DataOf (n_referenceImage n))
  /\ op <> EmptyString
  /\ exists operation,
       veoSubmit w (submittedBody r n) = HttpOk operation
       /\ operation_error operation = None
       /\ name operation = Some op.

(** The operation is found done, without error, at the [k]-th poll and not
    before. *)
Definition completesAt (w : World) (k : nat) (pollData : PollData) : Prop :=
  1 <= k <= 60
  /\ (forall j, 1 <= j < k -> pendingAt w j)
  /\ veoPoll w k = HttpOk pollData
  /\ done pollData = true
  /\ poll_error pollData = None.

(** The calls of a Veo request whose operation was polled [k] times. *)
Definition veoTrace (r : Request) (n : Normalized) (tok proj op : string)
    (k : nat) (fetches : list Event) : list Event :=
  (VeoSubmit (modelUrl proj "predictLongRunning") tok (submittedBody r n)
   :: concat (repeat (pendingTurn (modelUrl proj "fetchPredictOperation")
                        tok op) k)
   ++ fetches)%list.

(** ** Further concrete inputs *)

Definition largeNormalized : Normalized :=
  mkNormalized "Hi" EmptyString largeImage.

(** The third poll is answered with status 503. *)
Definition flakyWorld : World :=
  mockWorld started
    (fun k => if (k =? 3)%nat
              then HttpError 503 "unavailable"
              else HttpOk stillRunning).

(** The second poll finds the operation done, with one inline video. *)
Definition secondPollWorld : World :=
  mockWorld started
    (fun k => if (k =? 2)%nat then HttpOk firstPollDone else HttpOk stillRunning).

(** The submit call is refused. *)
Definition refusingWorld : World :=
  mockWorld (HttpError 403 "denied") (fun _ => HttpOk stillRunning).

Definition storedUri : string := "https://storage.example/video.mp4".

Definition storedEntry : VideoEntry := mkVideoEntry (Some storedUri) None.

(** Done at the first poll, with a storage reference. *)
Definition storedVideo : PollData :=
  mkPollData true None (Some (mkResponseBody (Some [storedEntry]) None)).

Definition fooBytes : list Byte.byte := [Byte.x66; Byte.x6f; Byte.x6f].

(** Every object can be fetched and holds the three bytes of [foo]. *)
Definition storageWorld : World :=
  mkWorld (Some (mkServiceAccount (Some "project"))) (AuthToken "token")
    None None None
    (fun _ => started) (fun _ => HttpOk storedVideo) (fun _ => FetchOk fooBytes)
    (fun _ _ => HttpError 500 (ErrorJson None))
    (fun _ => HttpError 500 (ErrorJson None))
    (fun _ => HttpError 500 tt).

(** Done at the first poll, with an empty response. *)
Definition emptyWorld : World :=
  mockWorld started (fun _ => HttpOk (mkPollData true None None)).

Definition hedraBackend (characters : Http (option string) HedraFailure)
    (videos : Http (option string) HedraFailure)
    (statusAt : nat -> Http HedraStatus unit) : World :=
  mkWorld None (AuthThrows "no service account") None None None
    (fun _ => HttpError 500 EmptyString) (fun _ => HttpError 500 EmptyString)
    (fun _ => FetchStatus 404)
    (fun _ _ => characters) (fun _ => videos) statusAt.

(** Every status reply is completed, without a link. *)
Definition hedraStalledWorld : World :=
  hedraBackend (HttpOk (Some "character-1")) (HttpOk (Some "video-1"))
    (fun _ => HttpOk (mkHedraStatus (Some "completed") None)).

(** The second status reply is failed. *)
Definition hedraFailingWorld : World :=
  hedraBackend (HttpOk (Some "character-1")) (HttpOk (Some "video-1"))
    (fun i => if (i =? 1)%nat
              then HttpOk (mkHedraStatus (Some "failed") None)
              else HttpOk (mkHedraStatus (Some "processing") None)).

(** The character cannot be created. *)
Definition hedraRefusingWorld : World :=
  hedraBackend (HttpError 401 (ErrorJson (Some "bad key"))) (HttpOk (Some "video-1"))
    (fun _ => HttpError 500 tt).

Definition hedraNormalized : Normalized :=
  mkNormalized "Hi" EmptyString largeImage.

Definition klingRequest : Request :=
  mkRequest (Some "Hi") None (Some largeImage) None None None (Some "kling")
    None None None None.

(** A request with a canonical script text and the legacy fields. *)
Definition mixedRequest : Request :=
  mkRequest (Some "Hi") None None (Some legacyTest) (Some testImage) None
    None None None None None.

(** A request without any image. *)
Definition imagelessRequest : Request :=
  mkRequest (Some "Hi") None None None None None None None None None None.

(** The remote calls of a Veo request are none, or one submit call followed
    by at most 60 turns of the polling loop and then at most two fetches. *)
Definition veoOrdered (w : World) (r : Request) : Prop :=
  snd (postGenerateVideo w r) = []
  \/ exists n tok proj op k fetches,
       normalize r = Accepted n
       /\ credentials w [] = (Return (tok, proj), [])
       /\ 100 <= String.length (base64DataOf (n_referenceImage n))
       /\ snd (postGenerateVideo w r) = veoTrace r n tok proj op k fetches
       /\ k <= 60
       /\ Forall (fun e => isFetch e = true) fetches
       /\ List.length fetches <= 2
       /\ (k = 0 -> fetches = [])
       /\ (0 < k ->
           exists operation,
             veoSubmit w (submittedBody r n) = HttpOk operation
             /\ operation_error operation = None
             /\ name operation = Some op).

(** The remote calls of a Hedra request: the character call, then possibly
    the video call, then at most 30 polls, each but a final one followed by
    a pause. *)
Definition hedraOrdered (w : World) (r : Request) (n : Normalized) : Prop :=
  exists calls video_id k rest,
    snd (postGenerateVideo w r)
    = (calls ++ concat (repeat (hedraTurn video_id) k) ++ rest)%list
    /\ (exists characterId,
          calls = [HedraCharacter (base64DataOf (n_referenceImage n))
                     (JS.or_string (model r) "character-3")]
          \/ calls = [HedraCharacter (base64DataOf (n_referenceImage n))
                        (JS.or_string (model r) "character-3");
                      HedraVideo characterId placeholderAudio (n_direction n)])
    /\ (rest = [] \/ rest = [HedraPoll video_id])
    /\ k + List.length rest <= 30.

(** ** The Seedream endpoints (lines 1138-1363 of [server.cjs])

    [/generate-image-seedream] and [/generate-consistent-angle-seedream].
    A width and a height are natural numbers below 10^21; an angle index
    is a number that holds a natural number, on which the code computes in
    double arithmetic; a cost, which the code only hands over, is written as its
    JSON literal. *)

Module Seedream.

Record Env := mkEnv {
  SEEDREAM_API_KEY : option string;
  BYTEPLUS_API_KEY : option string
}.

(** One element of [reference_images]. *)
Record Reference := mkReference {
  data : string;
  mime_type : string
}.

(** The body of the generation call. *)
Record Body := mkBody {
  model : JS.Value string;
  prompt : string;
  width : nat;
  height : nat;
  sequential_image_generation : string;
  reference_images : option (list Reference)
}.

(** The reply of the generation call: [{data: [{url}]}]. *)
Record Generated := mkGenerated {
  url : option string
}.

(** The outcome of the generation call: a reply with [ok] and its JSON, a
    reply with another status and its text, or an exception, of [fetch] or
    of reading the reply. *)
Inductive Generation :=
| Replied (data : option (list Generated))
| Refused (status : nat) (text : string)
| Thrown (message : string).

Inductive Call :=
| Generate (bearer : string) (body : Body)
| FetchImage (url : string).

Record Backend := mkBackend {
  env : Env;
  generations : Body -> Generation;
  fetchImage : string -> FetchReply
}.

(** The body of [/generate-image-seedream]. *)
Record ImageRequest := mkImageRequest {
  image_prompt : option string;
  image_refImages : option (list string);
  image_width : option nat;
  image_height : option nat;
  image_version : option string
}.

Record Intel := mkIntel { title : option string }.

Record Selections := mkSelections {
  scene : option string;
  country : option string
}.

(** The body of [/generate-consistent-angle-seedream]. *)
Record AngleRequest := mkAngleRequest {
  sourceImage : option string;
  index : option N;
  intel : option Intel;
  selections : option Selections;
  angle_refImages : option (list string);
  angle_version : option string
}.

(** An answer: the JSON of a success, or a status with an error. *)
Record Failure := mkFailure {
  status : nat;
  error : string;
  details : option string;
  fallback : option string
}.

Record ImageAnswer := mkImageAnswer {
  imageUrl : string;
  provider : string;
  cost : JS.Value string;
  resolution : string
}.

Record AngleAnswer := mkAngleAnswer {
  angle_imageUrl : string;
  angle_provider : string;
  angle_cost : string;
  angle : N
}.

Inductive Reply (A : Type) :=
| Ok (answer : A)
| Failed (failure : Failure).
Arguments Ok {A} answer.
Arguments Failed {A} failure.

(** [process.env.SEEDREAM_API_KEY || process.env.BYTEPLUS_API_KEY] *)
Definition seedreamKey (e : Env) : option string :=
  SEEDREAM_API_KEY e ||| BYTEPLUS_API_KEY e.

Definition modelMap : list (string * string) :=
  [ ("4.0", "seedream-4-0-250828"); ("4.5", "seedream-4-5-251128");
    ("5.0", "seedream-5-0-lite"); ("5.0-lite", "seedream-5-0-lite") ].

Definition costMap : list (string * string) :=
  [ ("4.0", "0.03"); ("4.5", "0.04"); ("5.0", "0.05"); ("5.0-lite", "0.03") ].

(** [modelMap[version] || 'seedream-4-5-251128'] *)
Definition modelVersion (version : string) : JS.Value string :=
  JS.or_literal (JS.access modelMap version) "seedream-4-5-251128".

(** [costMap[version] || 0.04] *)
Definition costOf (version : string) : JS.Value string :=
  JS.or_literal (JS.access costMap version) "0.04".

Definition imageUriPrefix : string := "data:image/jpeg;base64,".

(** [img => ({data: img.replace(prefix, ''), mime_type: 'image/jpeg'})] *)
Definition productReference (img : string) : Reference :=
  mkReference (base64DataOf img) "image/jpeg".

(** [refImages && refImages.length > 0] *)
Definition given (refImages : option (list string)) : option (list string) :=
  match refImages with
  | Some (img :: rest) => Some (img :: rest)
  | _ => None
  end.

Definition endpointFallback : string :=
  "Use /generate-image for Gemini 3 Pro ($0.78/image)".

(** [data.data && data.data.length > 0 && data.data[0].url] *)
Definition firstUrl (generated : option (list Generated)) : option string :=
  match generated with
  | Some (first :: _) => JS.nonEmpty (url first)
  | _ => None
  end.

(** What follows a generation call that was answered with [ok]: the image
    is fetched and encoded; a missing image, a fetch that fails and a fetch
    that throws all end in the [catch] of the handler. *)
Definition fetchGenerated (b : Backend)
    (generated : option (list Generated)) (calls : list Call)
  : (string + string) * list Call :=
  match firstUrl generated with
  | Some u =>
      match fetchImage b u with
      | FetchOk buffer =>
          (inl (imageUriPrefix ++ toBase64 buffer),
           (calls ++ [FetchImage u])%list)
      | FetchStatus _ =>
          (inr "Failed to fetch generated image",
           (calls ++ [FetchImage u])%list)
      | FetchThrows message => (inr message, (calls ++ [FetchImage u])%list)
      end
  | None => (inr "No image in response", calls)
  end.

(** [app.post('/generate-image-seedream', ...)] *)
Definition generateImageSeedream (b : Backend) (r : ImageRequest)
  : Reply ImageAnswer * list Call :=
  match seedreamKey (env b) with
  | Some (String k key) =>
      let width := match image_width r with Some n => n | None => 2048 end in
      let height := match image_height r with Some n => n | None => 2048 end in
      let version := defaultTo (image_version r) "4.0" in
      match image_prompt r with
      | Some (String c p) =>
          let body :=
            mkBody (modelVersion version) (String c p) width height
              "disabled"
              (option_map (map productReference) (given (image_refImages r)))
          in
          match generations b body with
          | Refused st errorText =>
              (Failed (mkFailure st
                         ("Seedream API error: " ++ JS.render_nat st)
                         (Some errorText)
                         (Some "Try /generate-image for Gemini 3 Pro")),
               [Generate (String k key) body])
          | Thrown message =>
              (Failed (mkFailure 500 message None (Some endpointFallback)),
               [Generate (String k key) body])
          | Replied generated =>
              match fetchGenerated b generated
                      [Generate (String k key) body] with
              | (inl uri, calls) =>
                  (Ok (mkImageAnswer uri ("seedream-" ++ version)
                         (costOf version)
                         (JS.render_nat width ++ "x" ++ JS.render_nat height)),
                   calls)
              | (inr message, calls) =>
                  (Failed (mkFailure 500 message None (Some endpointFallback)),
                   calls)
              end
          end
      | _ =>
          (Failed (mkFailure 400 "Prompt is required" None None), [])
      end
  | _ =>
      (Failed (mkFailure 400
                 "Seedream API key not configured. Add SEEDREAM_API_KEY to environment."
                 None (Some endpointFallback)),
       [])
  end.

Definition newline : string := String "010"%char EmptyString.

Definition anglePrompts : list string :=
  [ "Close-up, direct-to-camera portrait. Character looking straight at lens, centered framing, showcasing face and product clearly.";
    "45-degree side profile view, medium shot. Character turned slightly away from camera, looking toward product.";
    "Wider shot, different position. Character in different area of environment, showing more of the scene.";
    "Over-the-shoulder or three-quarter view. Character engaged with product, showing back/side of head and shoulders.";
    "Full body or wide shot. Character in full environment context, demonstrating product in use." ].

(** [anglePrompts[index] || anglePrompts[0]] *)
Definition anglePrompt (index : N) : string :=
  JS.render (JS.at_index anglePrompts index ||| JS.at_index anglePrompts 0).

Definition anglePromptText (index : N) (i : Intel) (s : Selections)
  : string :=
  "Generate a new camera angle of the EXACT SAME CHARACTER from the reference image. "
  ++ newline ++ anglePrompt index ++ newline
  ++ "Setting: " ++ JS.render (scene s) ++ " in " ++ JS.render (country s)
  ++ "." ++ newline
  ++ "Character must be holding or interacting with " ++ JS.render (title i)
  ++ "." ++ newline
  ++ "Maintain identical face, hair, clothing, and skin texture." ++ newline
  ++ "Cinematic hyper-realism, 8k quality, natural lighting.".

Definition angleFallback : string :=
  "Use /generate-consistent-angle for Gemini 3 Pro".

Definition missingFields : Failure :=
  mkFailure 400 "Missing required fields" None None.

(** [app.post('/generate-consistent-angle-seedream', ...)] *)
Definition generateConsistentAngleSeedream (b : Backend) (r : AngleRequest)
  : Reply AngleAnswer * list Call :=
  match seedreamKey (env b) with
  | Some (String k key) =>
      let version := defaultTo (angle_version r) "4.5" in
      match sourceImage r, index r, intel r, selections r with
      | Some (String c src), Some idx, Some i, Some s =>
          let is45 := String.eqb version "4.5" in
          let body :=
            mkBody
              (JS.Own (if is45 then "seedream-4-5-251128"
                       else "seedream-4-0-250828"))
              (anglePromptText idx i s) 2048 2048 "disabled"
              (Some (mkReference (base64DataOf (String c src)) "image/png"
                     :: match given (angle_refImages r) with
                        | Some imgs => map productReference imgs
                        | None => []
                        end))
          in
          match generations b body with
          | Refused st errorText =>
              (Failed (mkFailure st
                         ("Seedream API error: " ++ JS.render_nat st)
                         None (Some angleFallback)),
               [Generate (String k key) body])
          | Thrown message =>
              (Failed (mkFailure 500 message None (Some angleFallback)),
               [Generate (String k key) body])
          | Replied generated =>
              match fetchGenerated b generated
                      [Generate (String k key) body] with
              | (inl uri, calls) =>
                  (Ok (mkAngleAnswer uri ("seedream-" ++ version)
                         (if is45 then "0.04" else "0.03")
                         (JS.add idx 1)),
                   calls)
              | (inr message, calls) =>
                  (Failed (mkFailure 500 message None (Some angleFallback)),
                   calls)
              end
          end
      | _, _, _, _ => (Failed missingFields, [])
      end
  | _ =>
      (Failed (mkFailure 400 "Seedream API key not configured" None
                 (Some angleFallback)),
       [])
  end.

End Seedream.

(** ** Concrete inputs of the Seedream endpoints *)

Definition seedreamBackend (reply : Seedream.Generation)
    (fetchReply : FetchReply) : Seedream.Backend :=
  Seedream.mkBackend (Seedream.mkEnv None (Some "byteplus-key"))
    (fun _ => reply) (fun _ => fetchReply).

Definition oneImage : Seedream.Generation :=
  Seedream.Replied (Some [Seedream.mkGenerated (Some "https://cdn.example/image.jpg")]).

Definition seedreamImageRequest : Seedream.ImageRequest :=
  Seedream.mkImageRequest (Some "A red cup") (Some [testImage]) None None None.

Definition seedreamAngleRequest : Seedream.AngleRequest :=
  Seedream.mkAngleRequest (Some testImage) (Some 7%N)
    (Some (Seedream.mkIntel (Some "Cup")))
    (Some (Seedream.mkSelections (Some "Kitchen") None))
    (Some [testImage]) None.

(** A backend without any key. *)
Definition keylessBackend : Seedream.Backend :=
  Seedream.mkBackend (Seedream.mkEnv None None)
    (fun _ => oneImage) (fun _ => FetchOk fooBytes).

(** A backend that generates one image, whose bytes are those of [foo]. *)
Definition pictureBackend : Seedream.Backend :=
  seedreamBackend oneImage (FetchOk fooBytes).

(** A backend that answers every generation call with status 429. *)
Definition busyBackend : Seedream.Backend :=
  seedreamBackend (Seedream.Refused 429 "rate limited") (FetchStatus 404).

(** A backend whose generated image cannot be fetched. *)
Definition lostImageBackend : Seedream.Backend :=
  seedreamBackend oneImage (FetchStatus 404).

(** * Properties *)

(** ** Strings *)

Lemma append_assoc (a b c : string) : (a ++ b) ++ c = a ++ (b ++ c).
Proof. induction a as [|x a IH]; simpl; [reflexivity | now rewrite IH]. Qed.

Lemma append_empty_r (a : string) : a ++ EmptyString = a.
Proof. induction a as [|x a IH]; simpl; [reflexivity | now rewrite IH]. Qed.

Lemma append_length (a b : string) :
  String.length (a ++ b) = String.length a + String.length b.
Proof. induction a as [|x a IH]; simpl; [reflexivity | now rewrite IH]. Qed.

Lemma drop_length (k : nat) (s : string) :
  String.length (JS.drop k s) = String.length s - k.
Proof.
  revert s; induction k as [|k IH]; intros s.
  - simpl. lia.
  - destruct s as [|c s]; simpl; [reflexivity | apply IH].
Qed.

Lemma drop_append (p r : string) : JS.drop (String.length p) (p ++ r) = r.
Proof. induction p as [|c p IH]; simpl; [reflexivity | exact IH]. Qed.

Lemma starts_with_append (p r : string) : JS.starts_with p (p ++ r) = true.
Proof.
  induction p as [|c p IH]; simpl; [reflexivity |].
  now rewrite Ascii.eqb_refl, IH.
Qed.

Lemma starts_with_empty (p : string) :
  JS.starts_with p EmptyString = true -> p = EmptyString.
Proof. destruct p; simpl; [reflexivity | discriminate]. Qed.

(** A match of [p] at the head of [x ++ y] lies within [x] or runs over its
    end. *)
Lemma starts_with_split (p x y : string) :
  JS.starts_with p (x ++ y) = true ->
  JS.starts_with p x = true
  \/ (String.length x < String.length p
      /\ JS.starts_with (JS.drop (String.length x) p) y = true).
Proof.
  revert x; induction p as [|a p IH]; intros x H.
  - now left.
  - destruct x as [|b x]; simpl in *.
    + right. split; [lia | exact H].
    + apply andb_true_iff in H as [Hab H].
      destruct (IH x H) as [Hin | [Hlen Hover]].
      * left. now rewrite Hab, Hin.
      * right. split; [lia | exact Hover].
Qed.

Lemma starts_with_within (q x b : string) :
  JS.starts_with q (x ++ b) = true -> String.length q <= String.length x ->
  JS.starts_with q x = true.
Proof.
  revert x; induction q as [|a q IH]; intros x H Hlen; [reflexivity |].
  destruct x as [|c x]; simpl in *; [lia |].
  apply andb_true_iff in H as [Hac H].
  rewrite Hac. apply IH; [exact H | lia].
Qed.

Lemma starts_with_inv (p s : string) :
  JS.starts_with p s = true -> s = p ++ JS.drop (String.length p) s.
Proof.
  revert s; induction p as [|a p IH]; intros s H; [reflexivity |].
  destruct s as [|b s]; [discriminate |].
  cbn [JS.starts_with] in H. apply andb_true_iff in H as [Hab H].
  apply Ascii.eqb_eq in Hab. subst b. cbn [String.length JS.drop append].
  f_equal. now apply IH.
Qed.


Lemma contains_cons (sep : string) (c : ascii) (s : string) :
  JS.contains sep (String c s) = false ->
  JS.starts_with sep (String c s) = false /\ JS.contains sep s = false.
Proof. simpl. intros H. now apply orb_false_iff in H. Qed.

(** ** [split] *)

Lemma split_from_skip (sep x b : string) :
  JS.split_from sep (String.length x) (x ++ b) = JS.split_from sep 0 b.
Proof.
  induction x as [|c x IH]; simpl; [reflexivity | exact IH].
Qed.

Lemma split_at_separator (sep b : string) :
  sep <> EmptyString ->
  JS.split sep (sep ++ b) = EmptyString :: JS.split sep b.
Proof.
  intros Hsep. destruct sep as [|c sep]; [contradiction |].
  unfold JS.split.
  change (String c sep ++ b) with (String c (sep ++ b)).
  cbn [JS.split_from].
  change (String c (sep ++ b)) with (String c sep ++ b).
  rewrite starts_with_append. cbn [String.length].
  rewrite Nat.sub_1_r. cbn [Nat.pred].
  now rewrite split_from_skip.
Qed.

Lemma split_step (sep : string) (c : ascii) (s : string) :
  JS.starts_with sep (String c s) = false ->
  JS.split sep (String c s)
  = match JS.split sep s with
    | piece :: rest => String c piece :: rest
    | [] => [String c EmptyString]
    end.
Proof. intros H. unfold JS.split. cbn [JS.split_from]. now rewrite H. Qed.

(** The first piece ends at the first position where the separator matches. *)
Lemma split_first (sep d b : string) :
  sep <> EmptyString -> absent_before sep d (sep ++ b) = true ->
  JS.split sep (d ++ sep ++ b) = d :: JS.split sep b.
Proof.
  intros Hsep. induction d as [|c d IH]; intros H.
  - change (EmptyString ++ sep ++ b) with (sep ++ b).
    now apply split_at_separator.
  - cbn [absent_before] in H. apply andb_true_iff in H as [Hhere Hrest].
    apply negb_true_iff in Hhere.
    change (String c d ++ sep ++ b) with (String c (d ++ sep ++ b)) in *.
    rewrite (split_step _ _ _ Hhere), (IH Hrest). reflexivity.
Qed.

(** Without an occurrence of the separator the string is the only piece. *)
Lemma split_absent (sep s : string) :
  sep <> EmptyString -> JS.contains sep s = false -> JS.split sep s = [s].
Proof.
  intros Hsep. induction s as [|c s IH]; intros H; [reflexivity |].
  apply contains_cons in H as [Hhere Hrest].
  rewrite (split_step _ _ _ Hhere), (IH Hrest). reflexivity.
Qed.

Lemma absent_before_border_free (sep d b : string) :
  border_free sep -> JS.contains sep d = false ->
  absent_before sep d (sep ++ b) = true.
Proof.
  intros Hborder. induction d as [|c d IH]; intros H; [reflexivity |].
  apply contains_cons in H as [Hhere Hrest].
  cbn [absent_before]. rewrite (IH Hrest), andb_true_r.
  apply negb_true_iff.
  destruct (JS.starts_with sep (String c d ++ sep ++ b)) eqn:E;
    [exfalso | reflexivity].
  apply starts_with_split in E as [Hin | [Hlen Hover]].
  - rewrite Hin in Hhere. discriminate.
  - apply starts_with_within in Hover;
      [| rewrite drop_length; lia].
    rewrite Hborder in Hover; [discriminate |].
    cbn [String.length] in *. lia.
Qed.

(** For a separator whose occurrences cannot overlap: the first piece is the
    text before the first occurrence. *)
Lemma split_marker (sep d b : string) :
  sep <> EmptyString -> border_free sep -> JS.contains sep d = false ->
  JS.split sep (d ++ sep ++ b) = d :: JS.split sep b.
Proof.
  intros Hsep Hborder H.
  apply split_first; [exact Hsep |].
  now apply absent_before_border_free.
Qed.

Lemma scriptMarker_border_free : border_free scriptMarker.
Proof.
  intros k [Hpos Hlt].
  do 11 (destruct k as [|k]; [first [lia | reflexivity] |]).
  cbn in Hlt. lia.
Qed.


Lemma scriptMarker_nonempty : scriptMarker <> EmptyString.
Proof. discriminate. Qed.


(** ** Normalization *)

Lemma or_else_None (b : option string) : None ||| b = b.
Proof. reflexivity. Qed.


Lemma finalDirection_legacy (r : Request) (p : string) :
  direction r = None -> prompt r = Some p ->
  finalDirection r = JS.or_string (promptDirection p) EmptyString.
Proof.
  intros Hd Hp. unfold finalDirection. rewrite Hd, Hp, or_else_None.
  destruct p; [reflexivity |].
  cbn [JS.truthy]. now destruct (promptDirection _) as [[|]|].
Qed.








(** C2 (amended). For a request in the legacy convention with prompt [p]:
    when [p] is [d], the opening marker, [t], with no opening marker inside
    [d], the direction is [d], the text before the first opening marker; when
    the opening marker does not occur in [p], the direction is the whole
    prompt. *)
Theorem legacy_direction_recovered (r : Request) (p : string) :
  legacyOnly r -> prompt r = Some p ->
  (forall d t,
     p = d ++ scriptMarker ++ t -> JS.contains scriptMarker d = false ->
     finalDirection r = d)
  /\ (JS.contains scriptMarker p = false -> finalDirection r = p).
Proof.
  intros [_ [Hd _]] Hp.
  rewrite (finalDirection_legacy r p Hd Hp). unfold promptDirection.
  split.
  - intros d t -> H.
    rewrite (split_marker _ _ _ scriptMarker_nonempty
               scriptMarker_border_free H).
    now destruct d.
  - intros H. rewrite (split_absent _ _ scriptMarker_nonempty H).
    now destruct p.
Qed.

Lemma finalScriptText_empty (r : Request) :
  finalScriptText r = EmptyString
  <-> JS.truthy (scriptText r) = false /\ JS.truthy (prompt r) = false.
Proof.
  unfold finalScriptText.
  destruct (scriptText r) as [[|c s]|];
    destruct (prompt r) as [[|c' p]|]; cbn -[promptScript];
    try (destruct (promptScript (String c' p)) as [[|]|]; cbn);
    (split; [intros H; try discriminate H; now split
            | intros [H1 H2]; try discriminate H1; try discriminate H2;
              reflexivity]).
Qed.

Lemma finalReferenceImage_falsy (r : Request) :
  JS.truthy (finalReferenceImage r) = false
  <-> JS.truthy (referenceImage r) = false /\ JS.truthy (imageUrl r) = false.
Proof.
  unfold finalReferenceImage, JS.or_else.
  destruct (referenceImage r) as [[|c s]|];
    destruct (imageUrl r) as [[|c' p]|]; cbn;
    (split; [intros H; try discriminate H; now split
            | intros [H1 H2]; try discriminate H1; try discriminate H2;
              reflexivity]).
Qed.

Lemma normalize_MissingField (r : Request) :
  (exists error, normalize r = MissingField error)
  <-> finalScriptText r = EmptyString
      \/ JS.truthy (finalReferenceImage r) = false.
Proof.
  unfold normalize.
  destruct (finalScriptText r) as [|c s].
  - split; [now left | eauto].
  - destruct (finalReferenceImage r) as [[|c' img]|]; cbn.
    + split; [now right | eauto].
    + split; [intros [e He] | intros [H | H]]; discriminate.
    + split; [now right | eauto].
Qed.

(** C3. Normalization fails with the missing-script error when [scriptText]
    and [prompt] are both absent; it fails with a missing-field error when
    [referenceImage] and [imageUrl] are both absent, whatever the script
    fields hold, and that error is the missing-image one when the script text
    is there; and it fails in no other case: it fails exactly when no script
    field or no image field holds a non-empty string, so that no other field
    is required. *)
Theorem normalize_fails_iff_missing (r : Request) :
  (scriptText r = None -> prompt r = None ->
   normalize r = MissingField missingScript)
  /\ (referenceImage r = None -> imageUrl r = None ->
      (exists error, normalize r = MissingField error)
      /\ (finalScriptText r <> EmptyString ->
          normalize r = MissingField missingImage))
  /\ ((exists error, normalize r = MissingField error)
      <-> (JS.truthy (scriptText r) = false /\ JS.truthy (prompt r) = false)
          \/ (JS.truthy (referenceImage r) = false
              /\ JS.truthy (imageUrl r) = false)).
Proof.
  split; [| split].
  - intros Hs Hp. unfold normalize.
    assert (H : finalScriptText r = EmptyString)
      by (apply finalScriptText_empty; now rewrite Hs, Hp).
    now rewrite H.
  - intros Hi Hu.
    assert (H : finalReferenceImage r = None)
      by (unfold finalReferenceImage; now rewrite Hi, Hu).
    split.
    + apply normalize_MissingField. right. now rewrite H.
    + intros Hscript. unfold normalize. rewrite H.
      now destruct (finalScriptText r).
  - rewrite normalize_MissingField, finalScriptText_empty,
      finalReferenceImage_falsy. reflexivity.
Qed.



Lemma legacy_direction_recovered_witness :
  finalDirection (legacyRequest legacyTest testImage) = "Direction text".
Proof.
  exact (proj1 (legacy_direction_recovered
                  (legacyRequest legacyTest testImage) legacyTest
                  (conj eq_refl (conj eq_refl eq_refl)) eq_refl)
           "Direction text"
           ("Hello world" ++ JS.dquote ++ ". Style: UGC Talking.")
           eq_refl eq_refl).
Defined.

(** C2 as claimed fails: the prompt [hello] holds no marker, and the
    direction is not empty but the whole prompt. *)
Lemma legacy_direction_counterexample :
  legacyOnly (legacyRequest "hello" testImage)
  /\ JS.contains scriptMarker "hello" = false
  /\ JS.contains styleMarker "hello" = false
  /\ finalDirection (legacyRequest "hello" testImage) = "hello"
  /\ String.eqb (finalDirection (legacyRequest "hello" testImage)) EmptyString
     = false.
Proof. repeat split. Qed.

Lemma normalize_fails_iff_missing_witness :
  normalize (mkRequest None None (Some testImage) None None None None None
               None None None)
  = MissingField missingScript.
Proof.
  exact (proj1 (normalize_fails_iff_missing
                  (mkRequest None None (Some testImage) None None None None
                     None None None None))
           eq_refl eq_refl).
Defined.

(** A validation failure is answered with status 400 before any remote call,
    and status 400 has no other cause. *)
Lemma postGenerateVideo_400 (w : World) (r : Request) (error : string) :
  normalize r = MissingField error <->
  postGenerateVideo w r = (Json400 error, []).
Proof.
  unfold postGenerateVideo. destruct (normalize r) as [n | e].
  - split; [discriminate |].
    now destruct (dispatch w r n []) as [[v | e] trace].
  - split; intros H; now inversion H.
Qed.

(** ** Extraction of the video *)

Lemma fetchVideo_spec (w : World) (uri : string) (tr : list Event) :
  fetchVideo w uri tr
  = (Return (asDataUri (fetched w uri)), (tr ++ [Fetch uri])%list).
Proof.
  unfold fetchVideo, fetched, bind, call, ret.
  now destruct (fetch w uri).
Qed.

Ltac search_step :=
  cbn [firstOf andThen gcsUri bytesBase64Encoded fetchOf firstMatch
       JS.nonEmpty asDataUri option_map];
  rewrite ?fetchVideo_spec, ?app_nil_r; try reflexivity.

Lemma fromVideos_spec (w : World) (resp : option ResponseBody)
    (tr : list Event) :
  fromVideos w resp tr
  = (Return (asDataUri (firstMatch [rule1 w resp; rule2 resp])),
     (tr ++ fetchOf (andThen (firstOf (videos_of resp))
                       (fun v => JS.nonEmpty (gcsUri v))))%list).
Proof.
  unfold fromVideos, rule1, rule2, bind, ret.
  fold (videos_of resp).
  destruct (videos_of resp) as [[|[g b] vs]|]; search_step.
  destruct g as [[|c u]|]; search_step.
  2: destruct (fetched w (String c u)); search_step.
  all: now destruct b as [[|c' b]|].
Qed.

Lemma fromPredictions_spec (w : World) (resp : option ResponseBody)
    (tr : list Event) :
  fromPredictions w resp tr
  = (Return (asDataUri (firstMatch [rule3 resp; rule4 w resp])),
     (tr ++ match rule3 resp with
            | Some _ => []
            | None => fetchOf (andThen (firstOf (predictions_of resp))
                                 (fun p => JS.nonEmpty (gcsUri p)))
            end)%list).
Proof.
  unfold fromPredictions, rule3, rule4, bind, ret.
  fold (predictions_of resp).
  destruct (predictions_of resp) as [[|[g b] ps]|]; search_step.
  destruct b as [[|c' b]|]; search_step.
  all: destruct g as [[|c u]|]; search_step.
  all: now destruct (fetched w (String c u)).
Qed.

Lemma extractVideo_spec (w : World) (resp : option ResponseBody)
    (tr : list Event) :
  extractVideo w resp tr
  = (orderedSearch w resp, (tr ++ searchFetches w resp)%list).
Proof.
  unfold extractVideo, orderedSearch, searchFetches, bind.
  rewrite fromVideos_spec. cbn [firstMatch].
  destruct (rule1 w resp) as [p1|]; cbn [asDataUri option_map ret];
    [now rewrite app_nil_r |].
  destruct (rule2 resp) as [p2|]; cbn [asDataUri option_map ret];
    [now rewrite app_nil_r |].
  rewrite fromPredictions_spec. cbn [firstMatch].
  destruct (rule3 resp) as [p3|]; cbn [asDataUri option_map ret throw];
    [now rewrite !app_nil_r |].
  rewrite app_assoc.
  now destruct (rule4 w resp) as [p4|].
Qed.

(** C4. On the body of a completed operation, the extraction is the ordered
    search of the four rules, the first match winning: its outcome is that of
    [orderedSearch] (rule 1 fetches [videos[0].gcsUri] and is passed over when
    the fetch fails; rule 2 takes [videos[0].bytesBase64Encoded]; rule 3 takes
    [predictions[0].bytesBase64Encoded]; rule 4 fetches
    [predictions[0].gcsUri]), and its remote fetches are those of
    [searchFetches], so that rule 4 is not run once an earlier rule matched.
    A response holding only [predictions[0].bytesBase64Encoded] yields that
    payload without any fetch, and when no rule matches the extraction fails
    with the no-video-data error. *)
Theorem extractVideo_ordered_search (w : World) (resp : option ResponseBody)
    (tr : list Event) :
  extractVideo w resp tr
  = (orderedSearch w resp, (tr ++ searchFetches w resp)%list)
  /\ (forall b, b <> EmptyString ->
        extractVideo w (onlyPredictionBytes b) tr
        = (Return (dataUriPrefix ++ b), tr))
  /\ (rule1 w resp = None -> rule2 resp = None -> rule3 resp = None ->
      rule4 w resp = None ->
      fst (extractVideo w resp tr) = Throw noVideoData).
Proof.
  split; [apply extractVideo_spec | split].
  - intros b Hb. rewrite extractVideo_spec.
    destruct b as [|c b]; [contradiction |].
    unfold orderedSearch, searchFetches. cbn. now rewrite app_nil_r.
  - intros H1 H2 H3 H4. rewrite extractVideo_spec.
    unfold orderedSearch. now rewrite H1, H2, H3, H4.
Qed.

Lemma extractVideo_ordered_search_witness :
  extractVideo
    (mkWorld None (AuthThrows "no service account") None None None
       (fun _ => HttpError 500 EmptyString) (fun _ => HttpError 500 EmptyString)
       (fun _ => FetchStatus 404)
       (fun _ _ => HttpError 500 (ErrorJson None))
       (fun _ => HttpError 500 (ErrorJson None))
       (fun _ => HttpError 500 tt))
    (onlyPredictionBytes "Zm9v") []
  = (Return "data:video/mp4;base64,Zm9v", []).
Proof.
  refine (proj1 (proj2 (extractVideo_ordered_search _ None [])) "Zm9v" _).
  discriminate.
Defined.

(** ** The polling loop *)

Lemma concat_repeat_end {A : Type} (x : list A) (n : nat) :
  concat (repeat x (S n)) = (concat (repeat x n) ++ x)%list.
Proof.
  induction n as [|n IH].
  - cbn. now rewrite app_nil_r.
  - change (concat (repeat x (S (S n))))
      with (x ++ concat (repeat x (S n)))%list.
    rewrite IH at 1. cbn [repeat concat]. now rewrite app_assoc.
Qed.

Lemma pollCount_app (tr tr' : list Event) :
  pollCount (tr ++ tr') = pollCount tr + pollCount tr'.
Proof. unfold pollCount. now rewrite filter_app, length_app. Qed.

Section PollingLoop.

Variable w : World.
Variables ep tok op : string.

Lemma pollCount_pending (n : nat) :
  pollCount (concat (repeat (pendingTurn ep tok op) n)) = n.
Proof.
  induction n as [|n IH]; [reflexivity |].
  cbn [repeat concat]. rewrite pollCount_app, IH. reflexivity.
Qed.

(** [n] turns that find the operation not done: the loop goes on with [n]
    more attempts made, having slept and polled [n] times. *)
Lemma pollLoop_pending (n : nat) :
  forall (m attempts : nat) (tr : list Event),
    (forall k, attempts < k <= attempts + n -> pendingAt w k) ->
    pollLoop w ep tok op (n + m) attempts tr
    = pollLoop w ep tok op m (attempts + n)
        (tr ++ concat (repeat (pendingTurn ep tok op) n))%list.
Proof.
  induction n as [|n IH]; intros m attempts tr Hpending.
  - cbn [repeat concat Nat.add]. now rewrite Nat.add_0_r, app_nil_r.
  - destruct (Hpending (S attempts)) as [pollData [Hpoll Hdone]]; [lia |].
    cbn [Nat.add pollLoop]. unfold bind at 1 2, call.
    rewrite Hpoll, Hdone.
    rewrite IH by (intros k Hk; apply Hpending; lia).
    replace (S attempts + n) with (attempts + S n) by lia.
    f_equal. cbn [repeat concat]. unfold pendingTurn at 3.
    now rewrite <- !app_assoc.
Qed.

(** C5. When the first 60 polls all find the operation not done, the loop of
    [generateVeoVideo] ends with the timed-out error after sleeping and
    polling exactly 60 times: there is no 61st poll. *)
Theorem sixty_pending_polls_time_out (tr : list Event) :
  (forall k, 1 <= k <= 60 -> pendingAt w k) ->
  pollLoop w ep tok op maxAttempts 0 tr
  = (Throw timedOut,
     (tr ++ concat (repeat (pendingTurn ep tok op) 60))%list)
  /\ pollCount (snd (pollLoop w ep tok op maxAttempts 0 tr))
     = pollCount tr + 60.
Proof.
  intros Hpending.
  assert (H : pollLoop w ep tok op maxAttempts 0 tr
              = (Throw timedOut,
                 (tr ++ concat (repeat (pendingTurn ep tok op) 60))%list)).
  { change maxAttempts with (60 + 0).
    rewrite pollLoop_pending by (intros k Hk; apply Hpending; lia).
    reflexivity. }
  split; [exact H |].
  rewrite H. cbn [snd]. now rewrite pollCount_app, pollCount_pending.
Qed.

(** The 60th turn, when it finds the operation done with an error. *)
Lemma pollLoop_last_error (tr : list Event) (pollData : PollData)
    (e : RemoteError) :
  (forall k, 1 <= k <= 59 -> pendingAt w k) ->
  veoPoll w 60 = HttpOk pollData ->
  done pollData = true ->
  poll_error pollData = Some e ->
  pollLoop w ep tok op maxAttempts 0 tr
  = (Throw (generationFailed e),
     (tr ++ concat (repeat (pendingTurn ep tok op) 60))%list).
Proof.
  intros Hpending Hpoll Hdone Herror.
  change maxAttempts with (59 + 1).
  rewrite pollLoop_pending by (intros k Hk; apply Hpending; lia).
  cbn [Nat.add pollLoop]. unfold bind at 1 2, call.
  rewrite Hpoll, Hdone, Herror. unfold throw. f_equal.
  rewrite (concat_repeat_end (pendingTurn ep tok op) 59).
  unfold pendingTurn at 3. now rewrite <- !app_assoc.
Qed.

(** C6. When the first 59 polls find the operation not done and the 60th
    finds it done with an error, the loop ends, the 60th poll being the last
    call, with an error that carries the message of the remote error: the
    text [Veo generation failed: ] followed by that very message (by
    [undefined] when the remote error has none).  That error is never the
    timed-out error. *)
Theorem error_at_last_attempt_is_reported (tr : list Event)
    (pollData : PollData) (e : RemoteError) :
  (forall k, 1 <= k <= 59 -> pendingAt w k) ->
  veoPoll w 60 = HttpOk pollData ->
  done pollData = true ->
  poll_error pollData = Some e ->
  (forall remoteMessage,
     message e = Some remoteMessage ->
     pollLoop w ep tok op maxAttempts 0 tr
     = (Throw ("Veo generation failed: " ++ remoteMessage),
        (tr ++ concat (repeat (pendingTurn ep tok op) 60))%list))
  /\ (message e = None ->
      pollLoop w ep tok op maxAttempts 0 tr
      = (Throw "Veo generation failed: undefined",
         (tr ++ concat (repeat (pendingTurn ep tok op) 60))%list))
  /\ fst (pollLoop w ep tok op maxAttempts 0 tr)
     <> Throw "Veo video generation timed out".
Proof.
  intros Hpending Hpoll Hdone Herror.
  rewrite (pollLoop_last_error tr pollData e Hpending Hpoll Hdone Herror).
  unfold generationFailed. split; [| split].
  - intros remoteMessage ->. reflexivity.
  - intros ->. reflexivity.
  - cbn [fst]. discriminate.
Qed.

End PollingLoop.

Lemma sixty_pending_polls_time_out_witness :
  pollLoop pendingWorld "poll" "token" "operations/1" maxAttempts 0 []
  = (Throw timedOut,
     concat (repeat (pendingTurn "poll" "token" "operations/1") 60))
  /\ pollCount
       (snd (pollLoop pendingWorld "poll" "token" "operations/1"
               maxAttempts 0 []))
     = 60.
Proof.
  apply (sixty_pending_polls_time_out pendingWorld "poll" "token"
           "operations/1" []).
  intros k _. exists stillRunning. split; reflexivity.
Defined.

Lemma error_at_last_attempt_is_reported_witness :
  pollLoop failingWorld "poll" "token" "operations/1" maxAttempts 0 []
  = (Throw "Veo generation failed: quota exceeded",
     concat (repeat (pendingTurn "poll" "token" "operations/1") 60)).
Proof.
  refine (proj1 (error_at_last_attempt_is_reported failingWorld "poll"
                   "token" "operations/1" [] _ quotaExceeded
                   _ eq_refl eq_refl eq_refl)
            "quota exceeded" eq_refl).
  intros k Hk. exists stillRunning. split; [| reflexivity].
  cbn. destruct (Nat.eqb_spec k 60) as [E | _]; [lia | reflexivity].
Defined.

(** ** The accent tables *)






(** ** [generateVeoVideo] *)

Lemma credentials_trace (w : World) (tr : list Event) :
  credentials w tr = (fst (credentials w []), tr).
Proof.
  unfold credentials.
  destruct (SERVICE_ACCOUNT w) as [account|].
  - now destruct (getAccessToken w).
  - now destruct (VEO_ACCESS_TOKEN w) as [[|c t]|].
Qed.

(** The credentials are obtained or an error is thrown, without any call
    recorded. *)
Lemma credentials_cases (w : World) :
  (exists tok proj, credentials w [] = (Return (tok, proj), []))
  \/ (exists error, credentials w [] = (Throw error, [])).
Proof.
  unfold credentials.
  destruct (SERVICE_ACCOUNT w) as [account|].
  - destruct (getAccessToken w) as [token | error].
    + left. eexists. eexists. reflexivity.
    + right. eexists. reflexivity.
  - destruct (VEO_ACCESS_TOKEN w) as [[|c t]|].
    2: left; eexists; eexists; reflexivity.
    all: right; eexists; reflexivity.
Qed.

Lemma credentials_returned (w : World) (tok proj : string)
    (tr : list Event) :
  credentials w [] = (Return (tok, proj), []) ->
  credentials w tr = (Return (tok, proj), tr).
Proof. intros H. now rewrite credentials_trace, H. Qed.

Lemma credentials_thrown (w : World) (error : string) (tr : list Event) :
  credentials w [] = (Throw error, []) ->
  credentials w tr = (Throw error, tr).
Proof. intros H. now rewrite credentials_trace, H. Qed.

(** The image guard comes after the credentials and before the submit call. *)
Lemma generateVeoVideo_invalid_image (w : World)
    (s d img : string) (c vs va sp : option string) (tok proj : string)
    (tr : list Event) :
  credentials w [] = (Return (tok, proj), []) ->
  String.length (base64DataOf img) < 100 ->
  generateVeoVideo w s d img c vs va sp tr = (Throw invalidImage, tr).
Proof.
  intros Hcred Hshort.
  unfold generateVeoVideo, bind.
  rewrite (credentials_returned _ _ _ tr Hcred).
  apply Nat.ltb_lt in Hshort. now rewrite Hshort.
Qed.

Lemma generateVeoVideo_no_credentials (w : World)
    (s d img : string) (c vs va sp : option string) (error : string)
    (tr : list Event) :
  credentials w [] = (Throw error, []) ->
  generateVeoVideo w s d img c vs va sp tr = (Throw error, tr).
Proof.
  intros Hcred. unfold generateVeoVideo, bind.
  now rewrite (credentials_thrown _ _ tr Hcred).
Qed.

(** With credentials, a valid image and an accepted submit call,
    [generateVeoVideo] submits once and enters the polling loop. *)
Lemma generateVeoVideo_polls (w : World)
    (s d img : string) (c vs va sp : option string) (tok proj op : string) :
  credentials w [] = (Return (tok, proj), []) ->
  100 <= String.length (base64DataOf img) ->
  (forall body, veoSubmit w body = HttpOk (mkOperation (Some op) None)) ->
  op <> EmptyString ->
  generateVeoVideo w s d img c vs va sp []
  = pollLoop w (modelUrl proj "fetchPredictOperation") tok op maxAttempts 0
      [VeoSubmit (modelUrl proj "predictLongRunning") tok
         (requestBody s d img c (defaultTo vs "UGC Talking")
            (defaultTo va "american"))].
Proof.
  intros Hcred Hlong Hsubmit Hop.
  unfold generateVeoVideo, bind. rewrite Hcred.
  apply Nat.ltb_ge in Hlong. rewrite Hlong.
  unfold call. rewrite Hsubmit. cbn [operation_error name].
  now destruct op.
Qed.

Lemma pollLoop_done (w : World) (ep tok op : string) (n attempts : nat)
    (tr : list Event) (pollData : PollData) :
  veoPoll w (S attempts) = HttpOk pollData ->
  done pollData = true -> poll_error pollData = None ->
  pollLoop w ep tok op (S n) attempts tr
  = extractVideo w (response pollData) (tr ++ pendingTurn ep tok op)%list.
Proof.
  intros Hpoll Hdone Herror. cbn [pollLoop]. unfold bind at 1 2, call.
  rewrite Hpoll, Hdone, Herror. unfold pendingTurn.
  now rewrite <- app_assoc.
Qed.

Lemma orderedSearch_returns (w : World) (resp : option ResponseBody)
    (v : string) :
  orderedSearch w resp = Return v ->
  exists payload, v = dataUriPrefix ++ payload.
Proof.
  unfold orderedSearch. destruct (firstMatch _) as [payload|];
    [| discriminate].
  intros H. inversion H. now exists payload.
Qed.

Lemma pollLoop_returns (w : World) (ep tok op : string) (n : nat) :
  forall attempts tr v tr',
    pollLoop w ep tok op n attempts tr = (Return v, tr') ->
    exists payload, v = dataUriPrefix ++ payload.
Proof.
  induction n as [|n IH]; intros attempts tr v tr' H; [discriminate |].
  cbn [pollLoop] in H. unfold bind at 1 2, call in H.
  destruct (veoPoll w (S attempts)) as [pollData | st e]; [| discriminate].
  destruct (done pollData).
  - destruct (poll_error pollData); [discriminate |].
    rewrite extractVideo_spec in H. inversion H.
    eapply orderedSearch_returns; eauto.
  - eapply IH; eauto.
Qed.

Lemma generateVeoVideo_returns (w : World)
    (s d img : string) (c vs va sp : option string) (tr tr' : list Event)
    (v : string) :
  generateVeoVideo w s d img c vs va sp tr = (Return v, tr') ->
  exists payload, v = dataUriPrefix ++ payload.
Proof.
  unfold generateVeoVideo, bind at 1.
  destruct (credentials w tr) as [[[tok proj] | e] tr0]; [| discriminate].
  destruct (_ <? _)%nat; [discriminate |].
  unfold bind, call.
  destruct (veoSubmit w _) as [operation | st e]; [| discriminate].
  destruct (operation_error operation); [discriminate |].
  destruct (name operation) as [[|c0 n]|]; try discriminate.
  apply pollLoop_returns.
Qed.

(** ** Hedra and Kling *)

Lemma pollHedraVideo_returns (w : World) (videoId : option string) (n : nat) :
  forall i tr v tr',
    pollHedraVideo w videoId n i tr = (Return v, tr') ->
    exists k data, hedraStatus w k = HttpOk data /\ video_url data = Some v.
Proof.
  induction n as [|n IH]; intros i tr v tr' H; [discriminate |].
  cbn [pollHedraVideo] in H. unfold bind at 1, call in H.
  destruct (hedraStatus w i) as [data | st e] eqn:Hstatus; [| discriminate].
  destruct (JS.strict_eq (status data) "completed").
  - destruct (video_url data) as [[|c u]|] eqn:Hurl; cbn [JS.nonEmpty] in H.
    2: { inversion H. subst. now exists i, data. }
    all: destruct (JS.strict_eq (status data) "failed"); [discriminate |];
      unfold bind, call in H; eapply IH; eauto.
  - destruct (JS.strict_eq (status data) "failed"); [discriminate |].
    unfold bind, call in H. eapply IH; eauto.
Qed.

Lemma generateHedraVideo_returns (w : World)
    (s d img : string) (c : option string) (m : string) (va : option string)
    (tr tr' : list Event) (v : string) :
  generateHedraVideo w s d img c m va tr = (Return v, tr') ->
  exists k data, hedraStatus w k = HttpOk data /\ video_url data = Some v.
Proof.
  unfold generateHedraVideo, bind at 1, call.
  destruct (hedraCharacters w _ _) as [characterId | st [e | e]];
    try discriminate.
  unfold generateTTS, bind, ret, call.
  destruct (hedraVideos w characterId) as [video_id | st [e | e]];
    try discriminate.
  apply pollHedraVideo_returns.
Qed.

Lemma generateKlingVideo_throws (w : World) (tr tr' : list Event) (v : string) :
  generateKlingVideo w tr <> (Return v, tr').
Proof.
  unfold generateKlingVideo. now destruct (JS.truthy _).
Qed.

(** ** The answer of the handler *)

Lemma sextet_not_comma (i : nat) : Ascii.eqb "," (sextet i) = false.
Proof.
  unfold sextet.
  destruct (nth_in_or_default (i mod 64) base64Alphabet "/"%char)
    as [Hin | ->]; [| reflexivity].
  assert (Hall : forallb (fun x => negb (Ascii.eqb "," x)) base64Alphabet
                 = true) by reflexivity.
  rewrite forallb_forall in Hall. apply negb_true_iff. now apply Hall.
Qed.

Lemma comma_free_cons (x : ascii) (s : string) :
  Ascii.eqb "," x = false -> JS.contains "," s = false ->
  JS.contains "," (String x s) = false.
Proof.
  intros Hx Hs.
  change (JS.contains "," (String x s))
    with ((Ascii.eqb "," x && true) || JS.contains "," s).
  now rewrite Hx, Hs.
Qed.

(** Base64 text holds no comma. *)
Lemma toBase64_comma_free :
  forall buffer, JS.contains "," (toBase64 buffer) = false.
Proof.
  fix IH 1. intros [|a [|b [|c rest]]]; cbn [toBase64].
  - reflexivity.
  - repeat (apply comma_free_cons; [apply sextet_not_comma |]). reflexivity.
  - repeat (apply comma_free_cons; [apply sextet_not_comma |]). reflexivity.
  - repeat (apply comma_free_cons; [apply sextet_not_comma |]). apply IH.
Qed.

Lemma comma_border_free : border_free ",".
Proof. intros k [Hpos Hlt]. cbn in Hlt. lia. Qed.

(** The payload of a data URI is what the handler splits out of it. *)
Lemma base64Of_dataUri (payload : string) :
  JS.contains "," payload = false ->
  base64Of (dataUriPrefix ++ payload) = Some payload.
Proof.
  intros H. unfold base64Of.
  change (JS.starts_with "data:" (dataUriPrefix ++ payload)) with true.
  change (dataUriPrefix ++ payload)
    with ("data:video/mp4;base64" ++ "," ++ payload).
  rewrite split_marker;
    [| discriminate | apply comma_border_free | reflexivity].
  rewrite split_absent; [reflexivity | discriminate | exact H].
Qed.

Lemma postGenerateVideo_200 (w : World) (r : Request) (body : VideoResponse)
    (trace : list Event) :
  postGenerateVideo w r = (Json200 body, trace) ->
  exists n,
    normalize r = Accepted n
    /\ dispatch w r n [] = (Return (videoUrl body), trace)
    /\ success body = true
    /\ videoBase64 body = base64Of (videoUrl body).
Proof.
  unfold postGenerateVideo. destruct (normalize r) as [n | e];
    [| discriminate].
  destruct (dispatch w r n []) as [[v | e] tr] eqn:Hd; [| discriminate].
  intros H. inversion H. subst. exists n. now cbn.
Qed.

(** C9 (amended). For every request answered with success: on the Veo path
    [videoUrl] is the data-URI prefix followed by a payload, and [videoBase64]
    is that same payload whenever the payload holds no comma, as is the case
    of base64 text; on the other path that can succeed, Hedra, [videoUrl] is
    the [video_url] of a status reply, handed over unchanged, and
    [videoBase64] is null when that link does not start with [data:]. *)
Theorem successful_response_artifact (w : World) (r : Request)
    (body : VideoResponse) (trace : list Event) :
  postGenerateVideo w r = (Json200 body, trace) ->
  (veoPath r = true ->
   exists payload,
     videoUrl body = dataUriPrefix ++ payload
     /\ (JS.contains "," payload = false -> videoBase64 body = Some payload))
  /\ (veoPath r = false ->
      JS.strict_eq (provider r) "hedra" = true
      /\ (exists k data,
            hedraStatus w k = HttpOk data
            /\ video_url data = Some (videoUrl body))
      /\ (JS.starts_with "data:" (videoUrl body) = false ->
          videoBase64 body = None)).
Proof.
  intros H.
  destruct (postGenerateVideo_200 w r body trace H)
    as [n [_ [Hd [_ Hb64]]]].
  unfold veoPath. unfold dispatch in Hd.
  destruct (JS.strict_eq (provider r) "hedra").
  - split; [discriminate |]. intros _. split; [reflexivity | split].
    + eapply generateHedraVideo_returns; eauto.
    + intros Hdata. rewrite Hb64. unfold base64Of. now rewrite Hdata.
  - destruct (JS.strict_eq (provider r) "kling").
    + now apply generateKlingVideo_throws in Hd.
    + split; [| discriminate]. intros _.
      destruct (generateVeoVideo_returns _ _ _ _ _ _ _ _ _ _ _ Hd)
        as [payload Hv].
      exists payload. split; [exact Hv |].
      intros Hcomma. rewrite Hb64, Hv. now apply base64Of_dataUri.
Qed.

(** C8 (amended). The canonical request with script text Hi, provider veo and
    a reference image whose base64 payload has at least 100 characters, run
    with credentials that are obtained against a backend that accepts the
    submit call and answers the first poll with done and one inline video
    Zm9v, is answered with the artifact [data:video/mp4;base64,Zm9v] after
    one submit call and one poll. *)
Theorem canonical_request_end_to_end (w : World) (img tok proj op : string) :
  credentials w [] = (Return (tok, proj), []) ->
  100 <= String.length (base64DataOf img) ->
  (forall body, veoSubmit w body = HttpOk (mkOperation (Some op) None)) ->
  op <> EmptyString ->
  veoPoll w 1 = HttpOk firstPollDone ->
  postGenerateVideo w (canonicalRequest img)
  = (Json200 (mkVideoResponse true "data:video/mp4;base64,Zm9v" (Some "Zm9v")
                "veo"),
     [VeoSubmit (modelUrl proj "predictLongRunning") tok
        (requestBody "Hi" EmptyString img None "UGC Talking" "american");
      Sleep 5000;
      VeoPoll (modelUrl proj "fetchPredictOperation") tok op])
  /\ List.length (filter isVeoSubmit
                    (snd (postGenerateVideo w (canonicalRequest img)))) = 1
  /\ pollCount (snd (postGenerateVideo w (canonicalRequest img))) = 1.
Proof.
  intros Hcred Hlong Hsubmit Hop Hpoll.
  destruct img as [|c img]; [cbn in Hlong; lia |].
  pose proof (generateVeoVideo_polls w "Hi" EmptyString (String c img)
                None None None None tok proj op Hcred Hlong Hsubmit Hop)
    as Hgen.
  assert (Hpost :
            postGenerateVideo w (canonicalRequest (String c img))
            = (Json200 (mkVideoResponse true "data:video/mp4;base64,Zm9v"
                          (Some "Zm9v") "veo"),
               [VeoSubmit (modelUrl proj "predictLongRunning") tok
                  (requestBody "Hi" EmptyString (String c img) None
                     "UGC Talking" "american");
                Sleep 5000;
                VeoPoll (modelUrl proj "fetchPredictOperation") tok op])).
  { unfold postGenerateVideo.
    change (normalize (canonicalRequest (String c img)))
      with (Accepted (mkNormalized "Hi" EmptyString (String c img))).
    cbv beta iota.
    change (dispatch w (canonicalRequest (String c img))
              (mkNormalized "Hi" EmptyString (String c img)) [])
      with (generateVeoVideo w "Hi" EmptyString (String c img)
              None None None None []).
    rewrite Hgen. change maxAttempts with (S 59).
    rewrite (pollLoop_done _ _ _ _ _ _ _ _ Hpoll eq_refl eq_refl).
    rewrite extractVideo_spec. reflexivity. }
  rewrite Hpost. repeat split.
Qed.

(** C10 (amended). On the Veo path, when normalization accepted the request
    and the base64 payload of its reference image has fewer than 100
    characters, no remote call is made, so none to submit.  The answer is
    the invalid-image error when the credentials are obtained.  When they
    are not, the error of the credentials comes first: the authentication
    error when neither a service account nor an access token is configured,
    and the exception of the authentication library when the token request
    of a service account fails. *)
Theorem short_image_rejected_before_submit (w : World) (r : Request)
    (n : Normalized) :
  normalize r = Accepted n ->
  veoPath r = true ->
  String.length (base64DataOf (n_referenceImage n)) < 100 ->
  (forall tok proj,
     credentials w [] = (Return (tok, proj), []) ->
     postGenerateVideo w r = (Json500 "Invalid reference image data", []))
  /\ (forall error,
        credentials w [] = (Throw error, []) ->
        postGenerateVideo w r = (Json500 error, []))
  /\ (SERVICE_ACCOUNT w = None -> JS.truthy (VEO_ACCESS_TOKEN w) = false ->
      postGenerateVideo w r
      = (Json500
           "Veo video generation requires service account or VEO_ACCESS_TOKEN",
         []))
  /\ (forall account error,
        SERVICE_ACCOUNT w = Some account ->
        getAccessToken w = AuthThrows error ->
        postGenerateVideo w r = (Json500 error, []))
  /\ (forall account token,
        SERVICE_ACCOUNT w = Some account ->
        getAccessToken w = AuthToken token ->
        postGenerateVideo w r = (Json500 "Invalid reference image data", []))
  /\ (SERVICE_ACCOUNT w = None -> JS.truthy (VEO_ACCESS_TOKEN w) = true ->
      postGenerateVideo w r = (Json500 "Invalid reference image data", [])).
Proof.
  intros Hnorm Hveo Hshort.
  assert (Hok : forall tok proj,
             credentials w [] = (Return (tok, proj), []) ->
             postGenerateVideo w r = (Json500 invalidImage, [])).
  { intros tok proj Hcred. unfold postGenerateVideo, dispatch. rewrite Hnorm.
    unfold veoPath in Hveo. apply andb_true_iff in Hveo as [Hh Hk].
    apply negb_true_iff in Hh, Hk. rewrite Hh, Hk.
    now rewrite (generateVeoVideo_invalid_image _ _ _ _ _ _ _ _ tok proj). }
  assert (Hfail : forall error,
             credentials w [] = (Throw error, []) ->
             postGenerateVideo w r = (Json500 error, [])).
  { intros error Hcred. unfold postGenerateVideo, dispatch. rewrite Hnorm.
    unfold veoPath in Hveo. apply andb_true_iff in Hveo as [Hh Hk].
    apply negb_true_iff in Hh, Hk. rewrite Hh, Hk.
    now rewrite (generateVeoVideo_no_credentials _ _ _ _ _ _ _ _ error). }
  split; [exact Hok | split; [exact Hfail |]].
  split; [| split; [| split]].
  - intros Hsa Htok. apply Hfail. unfold credentials. rewrite Hsa.
    now destruct (VEO_ACCESS_TOKEN w) as [[|c t]|].
  - intros account error Hsa Hauth. apply Hfail. unfold credentials.
    now rewrite Hsa, Hauth.
  - intros account token Hsa Hauth.
    apply (Hok token (JS.render (project_id account))).
    unfold credentials. now rewrite Hsa, Hauth.
  - intros Hsa Htok. unfold credentials in Hok. rewrite Hsa in Hok.
    destruct (VEO_ACCESS_TOKEN w) as [[|c t]|]; try discriminate.
    eapply Hok. reflexivity.
Qed.

Lemma canonical_request_end_to_end_witness :
  fst (postGenerateVideo scenarioWorld (canonicalRequest largeImage))
  = Json200 (mkVideoResponse true "data:video/mp4;base64,Zm9v" (Some "Zm9v")
               "veo").
Proof.
  refine (f_equal fst
            (proj1 (canonical_request_end_to_end scenarioWorld largeImage
                      "token" "project" "operations/1" eq_refl _
                      (fun _ => eq_refl) _ eq_refl))).
  - apply Nat.leb_le. reflexivity.
  - discriminate.
Defined.

(** C8 as claimed fails: with the image of the claim, whose base64 payload
    has four characters, the same backend is never called and the request is
    answered with the invalid-image error. *)
Lemma canonical_request_counterexample :
  canonicalRequest tinyImage
  = mkRequest (Some "Hi") None (Some "data:image/png;base64,AAAA") None None
      None (Some "veo") None None None None
  /\ credentials scenarioWorld [] = (Return ("token", "project"), [])
  /\ veoPoll scenarioWorld 1 = HttpOk firstPollDone
  /\ base64DataOf tinyImage = "AAAA"
  /\ postGenerateVideo scenarioWorld (canonicalRequest tinyImage)
     = (Json500 "Invalid reference image data", []).
Proof. repeat split. Qed.

Lemma successful_response_artifact_witness :
  exists payload,
    "data:video/mp4;base64,Zm9v" = dataUriPrefix ++ payload
    /\ (JS.contains "," payload = false -> Some "Zm9v" = Some payload).
Proof.
  exact (proj1 (successful_response_artifact scenarioWorld
                  (canonicalRequest largeImage)
                  (mkVideoResponse true "data:video/mp4;base64,Zm9v"
                     (Some "Zm9v") "veo")
                  _ eq_refl)
           eq_refl).
Defined.

(** C9 as claimed fails: a Hedra request that completes is answered with the
    link of the status reply, which is no data URI, and with a null
    [videoBase64]. *)
Lemma successful_response_counterexample :
  fst (postGenerateVideo hedraWorld hedraRequest)
  = Json200 (mkVideoResponse true "https://cdn.hedra.com/video-1.mp4" None
               "hedra")
  /\ JS.starts_with dataUriPrefix "https://cdn.hedra.com/video-1.mp4" = false.
Proof. repeat split. Qed.

Lemma short_image_rejected_before_submit_witness :
  postGenerateVideo scenarioWorld (canonicalRequest tinyImage)
  = (Json500 invalidImage, []).
Proof.
  refine (proj1 (short_image_rejected_before_submit scenarioWorld
                   (canonicalRequest tinyImage)
                   (mkNormalized "Hi" EmptyString tinyImage)
                   eq_refl eq_refl _)
            "token" "project" eq_refl).
  apply Nat.ltb_lt. reflexivity.
Defined.

(** C10 as claimed fails: without credentials the same request, accepted by
    normalization and with a payload of four characters, is answered with the
    authentication error, not the invalid-image one. *)
Lemma short_image_counterexample :
  normalize (canonicalRequest tinyImage)
  = Accepted (mkNormalized "Hi" EmptyString tinyImage)
  /\ veoPath (canonicalRequest tinyImage) = true
  /\ String.length (base64DataOf tinyImage) = 4
  /\ postGenerateVideo noCredentialWorld (canonicalRequest tinyImage)
     = (Json500
          "Veo video generation requires service account or VEO_ACCESS_TOKEN",
        [])
  /\ String.eqb noAuthentication invalidImage = false.
Proof. repeat split. Qed.

(** * Further properties *)

(** ** Normalization and the answers of the handler *)

(** X1. A canonical field that holds a non-empty string is used as it is,
    whatever the legacy fields hold: [scriptText] before [prompt],
    [direction] before [prompt], [referenceImage] before [imageUrl].  A
    canonical field holding the empty string counts as absent: the script
    text is then recovered from the prompt, and the image is [imageUrl]. *)
Theorem canonical_fields_take_precedence (r : Request) :
  (forall s, scriptText r = Some s -> s <> EmptyString ->
             finalScriptText r = s)
  /\ (forall d, direction r = Some d -> d <> EmptyString ->
                finalDirection r = d)
  /\ (forall img, referenceImage r = Some img -> img <> EmptyString ->
                  finalReferenceImage r = Some img)
  /\ (forall p, JS.truthy (scriptText r) = false -> prompt r = Some p ->
                finalScriptText r
                = JS.or_string (promptScript p ||| Some p) EmptyString)
  /\ (JS.truthy (referenceImage r) = false ->
      finalReferenceImage r = imageUrl r).
Proof.
  unfold finalScriptText, finalDirection, finalReferenceImage.
  repeat split.
  - intros s -> Hs. now destruct s.
  - intros d -> Hd. now destruct d.
  - intros img -> Hi. now destruct img.
  - intros p Hs ->. unfold JS.or_else at 2. rewrite Hs. now destruct p.
  - intros Hi. unfold JS.or_else. now rewrite Hi.
Qed.

Lemma canonical_fields_take_precedence_witness :
  finalScriptText mixedRequest = "Hi".
Proof.
  refine (proj1 (canonical_fields_take_precedence mixedRequest) "Hi"
            eq_refl _).
  discriminate.
Defined.

(** X2. The request handed to a provider is complete: its script text and
    its reference image are the resolved ones and are never empty, and its
    direction is the resolved direction. *)
Theorem accepted_request_is_complete (r : Request) (n : Normalized) :
  normalize r = Accepted n ->
  n_scriptText n = finalScriptText r
  /\ n_scriptText n <> EmptyString
  /\ n_direction n = finalDirection r
  /\ finalReferenceImage r = Some (n_referenceImage n)
  /\ n_referenceImage n <> EmptyString.
Proof.
  unfold normalize.
  destruct (finalScriptText r) as [|c s] eqn:Hs; [discriminate |].
  destruct (finalReferenceImage r) as [[|c' img]|]; try discriminate.
  intros H. inversion H. cbn. repeat split; discriminate.
Qed.

Lemma accepted_request_is_complete_witness :
  n_scriptText (mkNormalized "Hello world" "Direction text" testImage)
  = finalScriptText (legacyRequest legacyTest testImage)
  /\ n_scriptText (mkNormalized "Hello world" "Direction text" testImage)
     <> EmptyString
  /\ n_direction (mkNormalized "Hello world" "Direction text" testImage)
     = finalDirection (legacyRequest legacyTest testImage)
  /\ finalReferenceImage (legacyRequest legacyTest testImage)
     = Some (n_referenceImage
               (mkNormalized "Hello world" "Direction text" testImage))
  /\ n_referenceImage (mkNormalized "Hello world" "Direction text" testImage)
     <> EmptyString.
Proof.
  exact (accepted_request_is_complete (legacyRequest legacyTest testImage)
           (mkNormalized "Hello world" "Direction text" testImage) eq_refl).
Defined.

(** X3. The answer has status 400 exactly when normalization fails, with the
    error of the failed validation, and then no remote call was made; every
    failure of a provider is answered with status 500 and its message. *)
Theorem validation_failure_is_answered_400 (w : World) (r : Request) :
  (forall error,
     normalize r = MissingField error
     <-> fst (postGenerateVideo w r) = Json400 error)
  /\ (forall error,
        fst (postGenerateVideo w r) = Json400 error ->
        snd (postGenerateVideo w r) = [])
  /\ (forall n error trace,
        normalize r = Accepted n ->
        dispatch w r n [] = (Throw error, trace) ->
        postGenerateVideo w r = (Json500 error, trace)).
Proof.
  split; [| split].
  - intros error. unfold postGenerateVideo.
    destruct (normalize r) as [n | e].
    + destruct (dispatch w r n []) as [[v | e] trace]; cbn [fst];
        split; discriminate.
    + cbn [fst]. split; congruence.
  - intros error. unfold postGenerateVideo.
    destruct (normalize r) as [n | e]; [| reflexivity].
    destruct (dispatch w r n []) as [[v | e] trace]; discriminate.
  - intros n error trace Hn Hd. unfold postGenerateVideo.
    now rewrite Hn, Hd.
Qed.

Lemma validation_failure_is_answered_400_witness :
  fst (postGenerateVideo scenarioWorld imagelessRequest)
  = Json400 "Missing required fields: referenceImage or imageUrl".
Proof.
  exact (proj1 (proj1 (validation_failure_is_answered_400 scenarioWorld
                         imagelessRequest)
                  missingImage)
           eq_refl).
Defined.

(** ** Further properties of the Veo polling loop *)

Section VeoPolling.

Variable w : World.
Variables ep tok op : string.

(** The loop after [k - 1] turns that found the operation not done. *)
Lemma pollLoop_reaches (k : nat) (tr : list Event) :
  1 <= k <= 60 ->
  (forall j, 1 <= j < k -> pendingAt w j) ->
  pollLoop w ep tok op maxAttempts 0 tr
  = pollLoop w ep tok op (S (60 - k)) (k - 1)
      (tr ++ concat (repeat (pendingTurn ep tok op) (k - 1)))%list.
Proof.
  intros Hk Hpending.
  replace maxAttempts with ((k - 1) + S (60 - k))
    by (unfold maxAttempts; lia).
  rewrite pollLoop_pending by (intros j Hj; apply Hpending; lia).
  reflexivity.
Qed.

Lemma turns_end (k : nat) (tr : list Event) :
  1 <= k ->
  ((tr ++ concat (repeat (pendingTurn ep tok op) (k - 1)))
   ++ pendingTurn ep tok op
   = tr ++ concat (repeat (pendingTurn ep tok op) k))%list.
Proof.
  intros Hk. replace k with (S (k - 1)) at 2 by lia.
  now rewrite concat_repeat_end, app_assoc.
Qed.

Lemma pollLoop_transport_failure (n attempts : nat) (tr : list Event)
    (st : nat) (text : string) :
  veoPoll w (S attempts) = HttpError st text ->
  pollLoop w ep tok op (S n) attempts tr
  = (Throw (pollFailed st text), (tr ++ pendingTurn ep tok op)%list).
Proof.
  intros Hpoll. cbn [pollLoop]. unfold bind at 1 2, call.
  rewrite Hpoll. unfold throw, pendingTurn. now rewrite <- app_assoc.
Qed.

Lemma pollLoop_operation_failed (n attempts : nat) (tr : list Event)
    (pollData : PollData) (e : RemoteError) :
  veoPoll w (S attempts) = HttpOk pollData ->
  done pollData = true -> poll_error pollData = Some e ->
  pollLoop w ep tok op (S n) attempts tr
  = (Throw (generationFailed e), (tr ++ pendingTurn ep tok op)%list).
Proof.
  intros Hpoll Hdone Herror. cbn [pollLoop]. unfold bind at 1 2, call.
  rewrite Hpoll, Hdone, Herror. unfold throw, pendingTurn.
  now rewrite <- app_assoc.
Qed.

(** X4. A poll answered with a status outside 200-299 ends the loop at once
    and is not retried: when the polls before the [k]-th found the operation
    not done and the [k]-th is answered with such a status, the loop throws
    the poll error, made of that status and of the body of the reply, after
    exactly [k] polls. *)
Theorem poll_transport_failure_is_fatal (k st : nat) (text : string)
    (tr : list Event) :
  1 <= k <= 60 ->
  (forall j, 1 <= j < k -> pendingAt w j) ->
  veoPoll w k = HttpError st text ->
  pollLoop w ep tok op maxAttempts 0 tr
  = (Throw ("Poll error: " ++ JS.render_nat st ++ " - " ++ text),
     (tr ++ concat (repeat (pendingTurn ep tok op) k))%list).
Proof.
  intros Hk Hpending Hpoll.
  rewrite (pollLoop_reaches k tr Hk Hpending).
  rewrite pollLoop_transport_failure with (st := st) (text := text)
    by (replace (S (k - 1)) with k by lia; exact Hpoll).
  rewrite turns_end by lia. reflexivity.
Qed.

Lemma pollLoop_done_at (k : nat) (pollData : PollData) (tr : list Event) :
  1 <= k <= 60 ->
  (forall j, 1 <= j < k -> pendingAt w j) ->
  veoPoll w k = HttpOk pollData ->
  done pollData = true ->
  (forall e, poll_error pollData = Some e ->
     pollLoop w ep tok op maxAttempts 0 tr
     = (Throw (generationFailed e),
        (tr ++ concat (repeat (pendingTurn ep tok op) k))%list))
  /\ (poll_error pollData = None ->
      pollLoop w ep tok op maxAttempts 0 tr
      = (orderedSearch w (response pollData),
         (tr ++ concat (repeat (pendingTurn ep tok op) k)
             ++ searchFetches w (response pollData))%list)).
Proof.
  intros Hk Hpending Hpoll Hdone.
  rewrite (pollLoop_reaches k tr Hk Hpending).
  assert (Hpoll' : veoPoll w (S (k - 1)) = HttpOk pollData)
    by (replace (S (k - 1)) with k by lia; exact Hpoll).
  split.
  - intros e Herror.
    rewrite (pollLoop_operation_failed _ _ _ _ _ Hpoll' Hdone Herror).
    now rewrite turns_end by lia.
  - intros Herror.
    rewrite (pollLoop_done _ _ _ _ _ _ _ _ Hpoll' Hdone Herror).
    rewrite extractVideo_spec, turns_end by lia.
    now rewrite app_assoc.
Qed.

(** X5. The first poll that finds the operation done ends the loop, at any
    attempt up to the 60th: with an error in the reply the loop throws the
    generation-failed error; without one its outcome is that of the ordered
    search on the response, whose fetches follow the [k] polls.  No poll
    follows a done reply. *)
Theorem done_at_any_attempt_ends_polling (k : nat) (pollData : PollData)
    (tr : list Event) :
  1 <= k <= 60 ->
  (forall j, 1 <= j < k -> pendingAt w j) ->
  veoPoll w k = HttpOk pollData ->
  done pollData = true ->
  (forall e, poll_error pollData = Some e ->
     pollLoop w ep tok op maxAttempts 0 tr
     = (Throw (generationFailed e),
        (tr ++ concat (repeat (pendingTurn ep tok op) k))%list))
  /\ (poll_error pollData = None ->
      pollLoop w ep tok op maxAttempts 0 tr
      = (orderedSearch w (response pollData),
         (tr ++ concat (repeat (pendingTurn ep tok op) k)
             ++ searchFetches w (response pollData))%list)).
Proof. exact (pollLoop_done_at k pollData tr). Qed.

Lemma fetchOf_shape (uri : option string) :
  Forall (fun e => isFetch e = true) (fetchOf uri)
  /\ List.length (fetchOf uri) <= 1.
Proof. destruct uri; cbn; split; auto. Qed.

Lemma searchFetches_shape (resp : option ResponseBody) :
  Forall (fun e => isFetch e = true) (searchFetches w resp)
  /\ List.length (searchFetches w resp) <= 2.
Proof.
  unfold searchFetches.
  destruct (fetchOf_shape (andThen (firstOf (videos_of resp))
                             (fun v => JS.nonEmpty (gcsUri v))))
    as [H1 L1].
  destruct (fetchOf_shape (andThen (firstOf (predictions_of resp))
                             (fun p => JS.nonEmpty (gcsUri p))))
    as [H2 L2].
  destruct (firstMatch _); rewrite ?app_nil_r.
  - split; [exact H1 | lia].
  - split; [now apply Forall_app | rewrite length_app; lia].
Qed.

(** Whatever the replies, the loop makes [k] turns, at most as many as it
    has attempts left, and then at most two fetches. *)
Lemma pollLoop_shape (n : nat) :
  forall attempts tr,
  exists k fetches,
    k <= n
    /\ snd (pollLoop w ep tok op n attempts tr)
       = (tr ++ concat (repeat (pendingTurn ep tok op) k) ++ fetches)%list
    /\ Forall (fun e => isFetch e = true) fetches
    /\ List.length fetches <= 2
    /\ (k = 0 -> fetches = []).
Proof.
  induction n as [|n IH]; intros attempts tr.
  - exists 0, []. cbn. rewrite app_nil_r. repeat split; auto.
  - destruct (veoPoll w (S attempts)) as [pollData | st text] eqn:Hpoll.
    + destruct (done pollData) eqn:Hdone.
      * destruct (poll_error pollData) as [e|] eqn:Herror.
        -- exists 1, [].
           rewrite (pollLoop_operation_failed _ _ _ _ _ Hpoll Hdone Herror).
           cbn [snd repeat concat]. rewrite ?app_nil_r.
           repeat split; auto; try lia; discriminate.
        -- exists 1, (searchFetches w (response pollData)).
           rewrite (pollLoop_done _ _ _ _ _ _ _ _ Hpoll Hdone Herror).
           rewrite extractVideo_spec. cbn [snd repeat concat].
           rewrite app_nil_r, <- app_assoc.
           destruct (searchFetches_shape (response pollData)) as [HF HL].
           repeat split; auto; try lia; discriminate.
      * destruct (IH (S attempts) (tr ++ pendingTurn ep tok op)%list)
          as [k [fetches [Hk [Htrace [HF [HL _]]]]]].
        exists (S k), fetches.
        assert (Hstep : pollLoop w ep tok op (S n) attempts tr
                        = pollLoop w ep tok op n (S attempts)
                            (tr ++ pendingTurn ep tok op)%list).
        { cbn [pollLoop]. unfold bind at 1 2, call.
          rewrite Hpoll, Hdone. unfold pendingTurn.
          now rewrite <- app_assoc. }
        rewrite Hstep, Htrace. cbn [repeat concat].
        rewrite <- !app_assoc. repeat split; auto; try lia; discriminate.
    + exists 1, [].
      rewrite (pollLoop_transport_failure _ _ _ _ _ Hpoll).
      cbn [snd repeat concat]. rewrite ?app_nil_r.
      repeat split; auto; try lia; discriminate.
Qed.

End VeoPolling.

(** ** Further properties of [generateVeoVideo] and of the handler *)

Lemma dispatch_veo (w : World) (r : Request) (n : Normalized) :
  veoPath r = true ->
  dispatch w r n
  = generateVeoVideo w (n_scriptText n) (n_direction n) (n_referenceImage n)
      (country r) (videoStyle r) (voiceAccent r) (styleParams r).
Proof.
  unfold veoPath, dispatch. intros H.
  apply andb_true_iff in H as [Hh Hk]. apply negb_true_iff in Hh, Hk.
  now rewrite Hh, Hk.
Qed.

Lemma generateVeoVideo_submits (w : World) (r : Request) (n : Normalized)
    (tok proj : string) :
  credentials w [] = (Return (tok, proj), []) ->
  100 <= String.length (base64DataOf (n_referenceImage n)) ->
  generateVeoVideo w (n_scriptText n) (n_direction n) (n_referenceImage n)
    (country r) (videoStyle r) (voiceAccent r) (styleParams r) []
  = afterSubmit w tok proj (veoSubmit w (submittedBody r n))
      [VeoSubmit (modelUrl proj "predictLongRunning") tok (submittedBody r n)].
Proof.
  intros Hc Hlong. unfold generateVeoVideo, bind at 1. rewrite Hc.
  apply Nat.ltb_ge in Hlong. rewrite Hlong.
  unfold bind, call, afterSubmit, submittedBody. cbn [app].
  now destruct (veoSubmit w _).
Qed.

Lemma postGenerateVideo_veo (w : World) (r : Request) (n : Normalized) :
  normalize r = Accepted n -> veoPath r = true ->
  postGenerateVideo w r
  = match generateVeoVideo w (n_scriptText n) (n_direction n)
            (n_referenceImage n) (country r) (videoStyle r) (voiceAccent r)
            (styleParams r) [] with
    | (Return videoResult, trace) =>
        (Json200 (mkVideoResponse true videoResult (base64Of videoResult)
                    (JS.or_string (provider r) "veo")),
         trace)
    | (Throw error, trace) => (Json500 error, trace)
    end.
Proof.
  intros Hn Hv. unfold postGenerateVideo.
  now rewrite Hn, (dispatch_veo w r n Hv).
Qed.

(** X6. A submit call that fails is fatal: when the reply has a status
    outside 200-299, or holds an error, or holds no operation name, the
    request is answered with status 500 and the matching message, and the
    submit call is the only remote call: nothing is polled.  An error in the
    reply wins over a missing name. *)
Theorem veo_submit_failure_is_fatal (w : World) (r : Request)
    (n : Normalized) (tok proj : string) :
  normalize r = Accepted n -> veoPath r = true ->
  credentials w [] = (Return (tok, proj), []) ->
  100 <= String.length (base64DataOf (n_referenceImage n)) ->
  let submit :=
    VeoSubmit (modelUrl proj "predictLongRunning") tok (submittedBody r n) in
  (forall st text,
     veoSubmit w (submittedBody r n) = HttpError st text ->
     postGenerateVideo w r
     = (Json500 ("Veo API error: " ++ JS.render_nat st ++ " - " ++ text),
        [submit]))
  /\ (forall operation e,
        veoSubmit w (submittedBody r n) = HttpOk operation ->
        operation_error operation = Some e ->
        postGenerateVideo w r
        = (Json500 ("Veo API error: " ++ JS.render (message e)), [submit]))
  /\ (forall operation,
        veoSubmit w (submittedBody r n) = HttpOk operation ->
        operation_error operation = None ->
        JS.truthy (name operation) = false ->
        postGenerateVideo w r = (Json500 noOperationName, [submit])).
Proof.
  intros Hn Hv Hc Hlong submit.
  rewrite (postGenerateVideo_veo w r n Hn Hv),
    (generateVeoVideo_submits w r n tok proj Hc Hlong).
  repeat split.
  - intros st text ->. reflexivity.
  - intros operation e -> He. cbn [afterSubmit]. now rewrite He.
  - intros operation -> He Hname. cbn [afterSubmit]. rewrite He.
    now destruct (name operation) as [[|c s]|].
Qed.

Lemma postGenerateVideo_veo_trace (w : World) (r : Request) (n : Normalized) :
  normalize r = Accepted n -> veoPath r = true ->
  snd (postGenerateVideo w r)
  = snd (generateVeoVideo w (n_scriptText n) (n_direction n)
           (n_referenceImage n) (country r) (videoStyle r) (voiceAccent r)
           (styleParams r) []).
Proof.
  intros Hn Hv. rewrite (postGenerateVideo_veo w r n Hn Hv).
  now destruct (generateVeoVideo _ _ _ _ _ _ _ _ _) as [[v | e] trace].
Qed.

(** The calls of a Veo request, in order. *)
Lemma veo_trace_shape (w : World) (r : Request) :
  veoPath r = true -> veoOrdered w r.
Proof.
  intros Hv. unfold veoOrdered, veoTrace.
  destruct (normalize r) as [n | e] eqn:Hn;
    [| left; unfold postGenerateVideo; now rewrite Hn].
  rewrite (postGenerateVideo_veo_trace w r n Hn Hv).
  destruct (credentials_cases w) as [[tok [proj Hc]] | [error Hc]].
  2: { left. unfold generateVeoVideo, bind at 1. now rewrite Hc. }
  destruct (Nat.ltb_spec (String.length (base64DataOf (n_referenceImage n)))
              100) as [Hshort | Hlong].
  { left. unfold generateVeoVideo, bind at 1. rewrite Hc.
    apply Nat.ltb_lt in Hshort. now rewrite Hshort. }
  right. rewrite (generateVeoVideo_submits w r n tok proj Hc Hlong).
  set (submit := VeoSubmit _ _ _).
  destruct (veoSubmit w (submittedBody r n)) as [operation | st text] eqn:Hs;
    cbn [afterSubmit].
  2: { exists n, tok, proj, EmptyString, 0, [].
       repeat split; auto; intros; lia. }
  destruct (operation_error operation) as [e|] eqn:He.
  { exists n, tok, proj, EmptyString, 0, [].
    repeat split; auto; intros; lia. }
  destruct (name operation) as [[|c op]|] eqn:Hname.
  1, 3: exists n, tok, proj, EmptyString, 0, [];
    repeat split; auto; intros; lia.
  destruct (pollLoop_shape w (modelUrl proj "fetchPredictOperation") tok
              (String c op) maxAttempts 0 [submit])
    as [k [fetches [Hk [Htrace [HF [HL H0]]]]]].
  exists n, tok, proj, (String c op), k, fetches.
  repeat split; auto.
  intros _. now exists operation.
Qed.

(** X7. The remote calls of a Veo request are made in a fixed order: either
    none is made, or normalization accepted the request, credentials were
    found, the base64 payload of the image has at least 100 characters, and
    the calls are one submit call carrying the body built from the normalized
    request, then [k] turns of a five-second pause followed by a poll, with
    [k] at most 60 and every poll carrying the operation name and the token
    of the submit call, then at most two fetches; fetches are made only
    after a poll. *)
Theorem veo_calls_are_ordered (w : World) (r : Request) :
  veoPath r = true -> veoOrdered w r.
Proof. exact (veo_trace_shape w r). Qed.

Lemma postGenerateVideo_started (w : World) (r : Request) (n : Normalized)
    (tok proj op : string) :
  veoStarted w r n tok proj op ->
  postGenerateVideo w r
  = match pollLoop w (modelUrl proj "fetchPredictOperation") tok op
            maxAttempts 0
            [VeoSubmit (modelUrl proj "predictLongRunning") tok
               (submittedBody r n)] with
    | (Return videoResult, trace) =>
        (Json200 (mkVideoResponse true videoResult (base64Of videoResult)
                    (JS.or_string (provider r) "veo")),
         trace)
    | (Throw error, trace) => (Json500 error, trace)
    end.
Proof.
  intros [Hn [Hv [Hc [Hlong [Hop [operation [Hs [He Hname]]]]]]]].
  rewrite (postGenerateVideo_veo w r n Hn Hv),
    (generateVeoVideo_submits w r n tok proj Hc Hlong), Hs.
  cbn [afterSubmit]. rewrite He, Hname. now destruct op.
Qed.

Lemma postGenerateVideo_completed (w : World) (r : Request) (n : Normalized)
    (tok proj op : string) (k : nat) (pollData : PollData) :
  veoStarted w r n tok proj op -> completesAt w k pollData ->
  postGenerateVideo w r
  = (match orderedSearch w (response pollData) with
     | Return videoResult =>
         Json200 (mkVideoResponse true videoResult (base64Of videoResult)
                    (JS.or_string (provider r) "veo"))
     | Throw error => Json500 error
     end,
     veoTrace r n tok proj op k (searchFetches w (response pollData))).
Proof.
  intros Hstart [Hk [Hpending [Hpoll [Hdone Herror]]]].
  rewrite (postGenerateVideo_started w r n tok proj op Hstart).
  destruct (pollLoop_done_at w
              (modelUrl proj "fetchPredictOperation") tok op k pollData
              [VeoSubmit (modelUrl proj "predictLongRunning") tok
                 (submittedBody r n)] Hk Hpending Hpoll Hdone) as [_ H].
  rewrite (H Herror). unfold veoTrace.
  now destruct (orderedSearch w (response pollData)).
Qed.

Lemma poll_transport_failure_is_fatal_witness :
  pollLoop flakyWorld "poll" "token" "operations/1" maxAttempts 0 []
  = (Throw "Poll error: 503 - unavailable",
     concat (repeat (pendingTurn "poll" "token" "operations/1") 3)).
Proof.
  refine (poll_transport_failure_is_fatal flakyWorld "poll" "token"
            "operations/1" 3 503 "unavailable" [] _ _ eq_refl).
  - lia.
  - intros j Hj. exists stillRunning. split; [| reflexivity].
    cbn. destruct (Nat.eqb_spec j 3) as [E | _]; [lia | reflexivity].
Defined.

Lemma done_at_any_attempt_ends_polling_witness :
  pollLoop secondPollWorld "poll" "token" "operations/1" maxAttempts 0 []
  = (Return "data:video/mp4;base64,Zm9v",
     concat (repeat (pendingTurn "poll" "token" "operations/1") 2)).
Proof.
  refine (proj2 (done_at_any_attempt_ends_polling secondPollWorld "poll"
                   "token" "operations/1" 2 firstPollDone [] _ _ eq_refl
                   eq_refl)
            eq_refl).
  - lia.
  - intros j Hj. exists stillRunning. split; [| reflexivity].
    cbn. destruct (Nat.eqb_spec j 2) as [E | _]; [lia | reflexivity].
Defined.

Lemma veo_submit_failure_is_fatal_witness :
  fst (postGenerateVideo refusingWorld (canonicalRequest largeImage))
  = Json500 "Veo API error: 403 - denied".
Proof.
  refine (f_equal fst
            (proj1 (veo_submit_failure_is_fatal refusingWorld
                      (canonicalRequest largeImage) largeNormalized
                      "token" "project" eq_refl eq_refl eq_refl _)
               403 "denied" eq_refl)).
  apply Nat.leb_le. reflexivity.
Defined.

Lemma veo_calls_are_ordered_witness :
  veoOrdered scenarioWorld (canonicalRequest largeImage).
Proof.
  exact (veo_calls_are_ordered scenarioWorld (canonicalRequest largeImage)
           eq_refl).
Defined.

(** X9. A Veo request whose operation is found done at the [k]-th poll with
    a storage reference in [videos[0].gcsUri] that can be fetched is answered
    with status 200: [videoUrl] is the data-URI prefix followed by the base64
    text of the fetched bytes, [videoBase64] is that base64 text, and the
    calls are the submit call, [k] polls and the one fetch. *)
Theorem storage_reference_answer (w : World) (r : Request) (n : Normalized)
    (tok proj op : string) (k : nat) (pollData : PollData)
    (v : VideoEntry) (uri : string) (buffer : list Byte.byte) :
  veoStarted w r n tok proj op -> completesAt w k pollData ->
  firstOf (videos_of (response pollData)) = Some v ->
  gcsUri v = Some uri -> uri <> EmptyString ->
  fetch w uri = FetchOk buffer ->
  postGenerateVideo w r
  = (Json200 (mkVideoResponse true (dataUriPrefix ++ toBase64 buffer)
                (Some (toBase64 buffer)) (JS.or_string (provider r) "veo")),
     veoTrace r n tok proj op k [Fetch uri]).
Proof.
  intros Hstart Hdone Hv Hu Huri Hfetch.
  rewrite (postGenerateVideo_completed w r n tok proj op k pollData
             Hstart Hdone).
  assert (H1 : rule1 w (response pollData) = Some (toBase64 buffer)).
  { unfold rule1. rewrite Hv. cbn [andThen]. rewrite Hu.
    destruct uri as [|c u]; [contradiction |].
    cbn [JS.nonEmpty andThen]. unfold fetched. now rewrite Hfetch. }
  unfold orderedSearch, searchFetches. cbn [firstMatch].
  rewrite H1, Hv. cbn [andThen]. rewrite Hu.
  destruct uri as [|c u]; [contradiction |].
  cbn [JS.nonEmpty fetchOf]. rewrite app_nil_r.
  now rewrite (base64Of_dataUri _ (toBase64_comma_free buffer)).
Qed.

(** X10. A Veo request whose operation is found done, without error, at the
    [k]-th poll but whose response matches none of the four rules is
    answered with status 500 and the no-video-data error, after [k] polls:
    a done operation is never polled again. *)
Theorem completed_without_video_is_an_error (w : World) (r : Request)
    (n : Normalized) (tok proj op : string) (k : nat) (pollData : PollData) :
  veoStarted w r n tok proj op -> completesAt w k pollData ->
  rule1 w (response pollData) = None -> rule2 (response pollData) = None ->
  rule3 (response pollData) = None -> rule4 w (response pollData) = None ->
  fst (postGenerateVideo w r) = Json500 "No video data in completed operation"
  /\ pollCount (snd (postGenerateVideo w r)) = k.
Proof.
  intros Hstart Hdone H1 H2 H3 H4.
  rewrite (postGenerateVideo_completed w r n tok proj op k pollData
             Hstart Hdone).
  unfold orderedSearch. rewrite H1, H2, H3, H4. cbn [firstMatch fst snd].
  split; [reflexivity |].
  unfold veoTrace.
  change (VeoSubmit ?a ?b ?c :: ?l) with ([VeoSubmit a b c] ++ l)%list.
  rewrite !pollCount_app, pollCount_pending.
  destruct (searchFetches_shape w (response pollData)) as [HF _].
  assert (Hz : pollCount (searchFetches w (response pollData)) = 0).
  { unfold pollCount. induction HF as [|e l He HF IH]; [reflexivity |].
    cbn [filter]. destruct e; try discriminate. exact IH. }
  rewrite Hz. cbn. lia.
Qed.

(** ** Hedra and Kling *)

Section HedraPolling.

Variable w : World.
Variable videoId : option string.

Lemma pollHedraVideo_step (n i : nat) (tr : list Event) :
  hedraPendingAt w i ->
  pollHedraVideo w videoId (S n) i tr
  = pollHedraVideo w videoId n (S i) (tr ++ hedraTurn videoId)%list.
Proof.
  intros [data [Hstatus [Hfinished Hfailed]]].
  cbn [pollHedraVideo]. unfold bind at 1, call. rewrite Hstatus.
  fold (hedraFinished data). rewrite Hfinished, Hfailed.
  unfold bind, call, hedraTurn. now rewrite <- app_assoc.
Qed.

Lemma pollHedraVideo_pending (n : nat) :
  forall (m i : nat) (tr : list Event),
    (forall j, i <= j < i + n -> hedraPendingAt w j) ->
    pollHedraVideo w videoId (n + m) i tr
    = pollHedraVideo w videoId m (i + n)
        (tr ++ concat (repeat (hedraTurn videoId) n))%list.
Proof.
  induction n as [|n IH]; intros m i tr Hpending.
  - cbn [repeat concat Nat.add]. now rewrite Nat.add_0_r, app_nil_r.
  - cbn [Nat.add]. rewrite pollHedraVideo_step by (apply Hpending; lia).
    rewrite IH by (intros j Hj; apply Hpending; lia).
    replace (S i + n) with (i + S n) by lia.
    f_equal. cbn [repeat concat]. now rewrite <- app_assoc.
Qed.

Lemma hedraPollCount_app (tr tr' : list Event) :
  hedraPollCount (tr ++ tr') = hedraPollCount tr + hedraPollCount tr'.
Proof. unfold hedraPollCount. now rewrite filter_app, length_app. Qed.

Lemma hedraPollCount_turns (n : nat) :
  hedraPollCount (concat (repeat (hedraTurn videoId) n)) = n.
Proof.
  induction n as [|n IH]; [reflexivity |].
  cbn [repeat concat]. rewrite hedraPollCount_app, IH. reflexivity.
Qed.

(** X11. When none of the first 30 status replies ends the Hedra polling (a
    reply with status completed but without a link counts as such), the
    polling throws the timed-out error after exactly 30 polls, each followed
    by a pause of two seconds. *)
Theorem hedra_polling_times_out (tr : list Event) :
  (forall i, i < 30 -> hedraPendingAt w i) ->
  pollHedraVideo w videoId 30 0 tr
  = (Throw "Hedra video generation timed out",
     (tr ++ concat (repeat (hedraTurn videoId) 30))%list)
  /\ hedraPollCount (snd (pollHedraVideo w videoId 30 0 tr))
     = hedraPollCount tr + 30.
Proof.
  intros Hpending.
  assert (H : pollHedraVideo w videoId 30 0 tr
              = (Throw "Hedra video generation timed out",
                 (tr ++ concat (repeat (hedraTurn videoId) 30))%list)).
  { change 30 with (30 + 0) at 1.
    rewrite pollHedraVideo_pending by (intros j Hj; apply Hpending; lia).
    reflexivity. }
  split; [exact H |].
  rewrite H. cbn [snd]. now rewrite hedraPollCount_app, hedraPollCount_turns.
Qed.

Lemma pollHedraVideo_reaches (k : nat) (tr : list Event) :
  k < 30 ->
  (forall i, i < k -> hedraPendingAt w i) ->
  pollHedraVideo w videoId 30 0 tr
  = pollHedraVideo w videoId (S (29 - k)) k
      (tr ++ concat (repeat (hedraTurn videoId) k))%list.
Proof.
  intros Hk Hpending.
  replace 30 with (k + S (29 - k)) at 1 by lia.
  rewrite pollHedraVideo_pending by (intros j Hj; apply Hpending; lia).
  reflexivity.
Qed.

Lemma pollHedraVideo_terminal (k : nat) (tr : list Event) :
  k < 30 ->
  (forall i, i < k -> hedraPendingAt w i) ->
  let trace :=
    (tr ++ concat (repeat (hedraTurn videoId) k) ++ [HedraPoll videoId])%list
  in
  (forall data url,
     hedraStatus w k = HttpOk data -> hedraFinished data = Some url ->
     pollHedraVideo w videoId 30 0 tr = (Return url, trace))
  /\ (forall data,
        hedraStatus w k = HttpOk data -> hedraFinished data = None ->
        JS.strict_eq (status data) "failed" = true ->
        pollHedraVideo w videoId 30 0 tr
        = (Throw "Hedra video generation failed", trace))
  /\ (forall st,
        hedraStatus w k = HttpError st tt ->
        pollHedraVideo w videoId 30 0 tr
        = (Throw ("Poll error: " ++ JS.render_nat st), trace)).
Proof.
  intros Hk Hpending trace. subst trace.
  rewrite (pollHedraVideo_reaches k tr Hk Hpending).
  cbn [pollHedraVideo]. unfold bind at 1 3 5, call.
  rewrite <- !app_assoc.
  repeat split.
  - intros data url -> Hf. fold (hedraFinished data). now rewrite Hf.
  - intros data -> Hf Hfailed. fold (hedraFinished data).
    now rewrite Hf, Hfailed.
  - intros st ->. reflexivity.
Qed.

(** X12. The Hedra polling ends at the first status reply that is terminal:
    a reply with status completed and a link returns that link, a reply with
    status failed throws the generation-failed error, and a reply with a
    status outside 200-299 throws the poll error with that status; in each
    case that poll is the last call, without a pause after it. *)
Theorem hedra_polling_ends_at_first_terminal_reply (k : nat)
    (tr : list Event) :
  k < 30 ->
  (forall i, i < k -> hedraPendingAt w i) ->
  let trace :=
    (tr ++ concat (repeat (hedraTurn videoId) k) ++ [HedraPoll videoId])%list
  in
  (forall data url,
     hedraStatus w k = HttpOk data -> hedraFinished data = Some url ->
     pollHedraVideo w videoId 30 0 tr = (Return url, trace))
  /\ (forall data,
        hedraStatus w k = HttpOk data -> hedraFinished data = None ->
        JS.strict_eq (status data) "failed" = true ->
        pollHedraVideo w videoId 30 0 tr
        = (Throw "Hedra video generation failed", trace))
  /\ (forall st,
        hedraStatus w k = HttpError st tt ->
        pollHedraVideo w videoId 30 0 tr
        = (Throw ("Poll error: " ++ JS.render_nat st), trace)).
Proof. exact (pollHedraVideo_terminal k tr). Qed.

(** Whatever the replies, the loop polls at most as often as it has
    attempts left, and makes no other call. *)
Lemma pollHedraVideo_shape (n : nat) :
  forall i tr,
  exists k rest,
    snd (pollHedraVideo w videoId n i tr)
    = (tr ++ concat (repeat (hedraTurn videoId) k) ++ rest)%list
    /\ (rest = [] \/ rest = [HedraPoll videoId])
    /\ k + List.length rest <= n.
Proof.
  induction n as [|n IH]; intros i tr.
  - exists 0, []. cbn. rewrite app_nil_r. auto.
  - cbn [pollHedraVideo]. unfold bind at 1, call.
    destruct (hedraStatus w i) as [data | st e].
    + fold (hedraFinished data).
      destruct (hedraFinished data) as [url|].
      * exists 0, [HedraPoll videoId]. cbn. split; [reflexivity |].
        split; [now right | lia].
      * destruct (JS.strict_eq (status data) "failed").
        -- exists 0, [HedraPoll videoId]. cbn. split; [reflexivity |].
           split; [now right | lia].
        -- unfold bind, call.
           destruct (IH (S i) ((tr ++ [HedraPoll videoId]) ++ [Sleep 2000])%list)
             as [k [rest [Htrace [Hrest Hk]]]].
           exists (S k), rest. rewrite Htrace. cbn [repeat concat].
           unfold hedraTurn at 3. rewrite <- !app_assoc.
           split; [reflexivity |]. split; [exact Hrest | lia].
    + exists 0, [HedraPoll videoId]. cbn. split; [reflexivity |].
      split; [now right | lia].
Qed.

End HedraPolling.

Lemma dispatch_hedra (w : World) (r : Request) (n : Normalized) :
  JS.strict_eq (provider r) "hedra" = true ->
  dispatch w r n
  = generateHedraVideo w (n_scriptText n) (n_direction n)
      (n_referenceImage n) (country r)
      (JS.or_string (model r) "character-3") (voiceAccent r).
Proof. unfold dispatch. now intros ->. Qed.

Lemma dispatch_kling (w : World) (r : Request) (n : Normalized) :
  JS.strict_eq (provider r) "kling" = true ->
  dispatch w r n = generateKlingVideo w.
Proof.
  unfold dispatch. intros H.
  destruct (JS.strict_eq (provider r) "hedra") eqn:Hh; [| now rewrite H].
  unfold JS.strict_eq in *. destruct (provider r) as [p|]; [| discriminate].
  apply String.eqb_eq in H, Hh. congruence.
Qed.

(** What follows the two creation calls of a Hedra request. *)
Lemma generateHedraVideo_created (w : World) (s d img : string)
    (c : option string) (m : string) (va : option string)
    (characterId video_id : option string) :
  hedraCharacters w (base64DataOf img) m = HttpOk characterId ->
  hedraVideos w characterId = HttpOk video_id ->
  generateHedraVideo w s d img c m va []
  = pollHedraVideo w video_id 30 0
      [HedraCharacter (base64DataOf img) m;
       HedraVideo characterId placeholderAudio d].
Proof.
  intros Hc Hv. unfold generateHedraVideo, bind at 1, call. rewrite Hc.
  unfold generateTTS, bind, ret, call. now rewrite Hv.
Qed.

(** X13. A Hedra request whose character call is answered with a status
    outside 200-299 is answered with status 500, and no other call is made.
    When the body of that reply is read as JSON, the error is the init
    error, made of the message of the body or, without one, of the status;
    when reading the body throws, as for a body that is no JSON, the error
    is the message of that exception.  The same holds for the video call,
    with the video error, and then nothing is polled.  The video call
    carries the placeholder audio link and the direction. *)
Theorem hedra_creation_failure_is_fatal (w : World) (r : Request)
    (n : Normalized) :
  normalize r = Accepted n ->
  JS.strict_eq (provider r) "hedra" = true ->
  let image := base64DataOf (n_referenceImage n) in
  let model := JS.or_string (model r) "character-3" in
  (forall st failure,
     hedraCharacters w image model = HttpError st failure ->
     postGenerateVideo w r
     = (Json500
          match failure with
          | ErrorJson message =>
              "Hedra init error: " ++ JS.or_string message (JS.render_nat st)
          | ErrorUnreadable exception => exception
          end,
        [HedraCharacter image model]))
  /\ (forall characterId st failure,
        hedraCharacters w image model = HttpOk characterId ->
        hedraVideos w characterId = HttpError st failure ->
        postGenerateVideo w r
        = (Json500
             match failure with
             | ErrorJson message =>
                 "Hedra video error: "
                 ++ JS.or_string message (JS.render_nat st)
             | ErrorUnreadable exception => exception
             end,
           [HedraCharacter image model;
            HedraVideo characterId placeholderAudio (n_direction n)])).
Proof.
  intros Hn Hh image model.
  unfold postGenerateVideo. rewrite Hn, (dispatch_hedra w r n Hh).
  unfold generateHedraVideo, bind at 1 3, call.
  fold image. fold model.
  split.
  - intros st failure ->. now destruct failure.
  - intros characterId st failure -> Hv.
    unfold generateTTS, bind, ret, call. rewrite Hv. now destruct failure.
Qed.

(** X14. A Hedra request whose two creation calls succeed and whose [k]-th
    status reply is the first terminal one, completed with a link, is
    answered with status 200: [videoUrl] is that link, [videoBase64] is what
    the handler splits out of it, the provider is hedra, and the calls are
    the character call with the image stripped of its data-URI prefix, the
    video call with the placeholder audio link and the direction, and the
    polls. *)
Theorem hedra_completed_answer (w : World) (r : Request) (n : Normalized)
    (characterId video_id : option string) (k : nat) (data : HedraStatus)
    (url : string) :
  normalize r = Accepted n ->
  JS.strict_eq (provider r) "hedra" = true ->
  hedraCharacters w (base64DataOf (n_referenceImage n))
    (JS.or_string (model r) "character-3") = HttpOk characterId ->
  hedraVideos w characterId = HttpOk video_id ->
  k < 30 ->
  (forall i, i < k -> hedraPendingAt w i) ->
  hedraStatus w k = HttpOk data ->
  hedraFinished data = Some url ->
  postGenerateVideo w r
  = (Json200 (mkVideoResponse true url (base64Of url) "hedra"),
     [HedraCharacter (base64DataOf (n_referenceImage n))
        (JS.or_string (model r) "character-3");
      HedraVideo characterId placeholderAudio (n_direction n)]
     ++ concat (repeat (hedraTurn video_id) k) ++ [HedraPoll video_id])%list.
Proof.
  intros Hn Hh Hc Hv Hk Hpending Hstatus Hfinished.
  unfold postGenerateVideo. rewrite Hn, (dispatch_hedra w r n Hh).
  rewrite (generateHedraVideo_created _ _ _ _ _ _ _ _ _ Hc Hv).
  destruct (pollHedraVideo_terminal w video_id k
              [HedraCharacter (base64DataOf (n_referenceImage n))
                 (JS.or_string (model r) "character-3");
               HedraVideo characterId placeholderAudio (n_direction n)]
              Hk Hpending) as [H _].
  rewrite (H data url Hstatus Hfinished).
  assert (Hp : JS.or_string (provider r) "veo" = "hedra").
  { unfold JS.strict_eq in Hh. destruct (provider r) as [p|]; [| discriminate].
    apply String.eqb_eq in Hh. now subst. }
  now rewrite Hp.
Qed.

Lemma postGenerateVideo_kling (w : World) (r : Request) (n : Normalized) :
  normalize r = Accepted n ->
  JS.strict_eq (provider r) "kling" = true ->
  postGenerateVideo w r
  = (Json500 (if JS.truthy (KLING_API_KEY w)
              then "Kling integration not yet implemented"
              else "KLING_API_KEY not configured"),
     []).
Proof.
  intros Hn Hk. unfold postGenerateVideo.
  rewrite Hn, (dispatch_kling w r n Hk). unfold generateKlingVideo.
  now destruct (JS.truthy (KLING_API_KEY w)).
Qed.

(** X15. A request for the provider kling that passes normalization is
    always answered with status 500, without any remote call: with the
    not-configured error when the API key is absent or empty, and with the
    not-implemented error otherwise. *)
Theorem kling_always_fails (w : World) (r : Request) (n : Normalized) :
  normalize r = Accepted n ->
  JS.strict_eq (provider r) "kling" = true ->
  postGenerateVideo w r
  = (Json500 (if JS.truthy (KLING_API_KEY w)
              then "Kling integration not yet implemented"
              else "KLING_API_KEY not configured"),
     []).
Proof. exact (postGenerateVideo_kling w r n). Qed.

(** ** Bounds on the remote calls *)

Lemma count_app (p : Event -> bool) (a b : list Event) :
  List.length (filter p (a ++ b))
  = List.length (filter p a) + List.length (filter p b).
Proof. now rewrite filter_app, length_app. Qed.

Lemma count_turns (p : Event -> bool) (x : list Event) (k : nat) :
  List.length (filter p (concat (repeat x k)))
  = k * List.length (filter p x).
Proof.
  induction k as [|k IH]; [reflexivity |].
  cbn [repeat concat]. rewrite count_app, IH. cbn [Nat.mul]. lia.
Qed.

Lemma count_other (p q : Event -> bool) (l : list Event) :
  (forall e, q e = true -> p e = false) ->
  Forall (fun e => q e = true) l ->
  List.length (filter p l) = 0.
Proof.
  intros Hpq H. induction H as [|e l He H IH]; [reflexivity |].
  cbn [filter]. now rewrite (Hpq e He).
Qed.

Lemma count_le (p : Event -> bool) (l : list Event) :
  List.length (filter p l) <= List.length l.
Proof.
  induction l as [|e l IH]; [auto |].
  cbn [filter]. destruct (p e); cbn [List.length]; lia.
Qed.

Lemma generateHedraVideo_shape (w : World) (s d img : string)
    (c : option string) (m : string) (va : option string) :
  exists calls video_id k rest,
    snd (generateHedraVideo w s d img c m va [])
    = (calls ++ concat (repeat (hedraTurn video_id) k) ++ rest)%list
    /\ (exists characterId,
          calls = [HedraCharacter (base64DataOf img) m]
          \/ calls = [HedraCharacter (base64DataOf img) m;
                      HedraVideo characterId placeholderAudio d])
    /\ (rest = [] \/ rest = [HedraPoll video_id])
    /\ k + List.length rest <= 30.
Proof.
  unfold generateHedraVideo, bind at 1, call.
  destruct (hedraCharacters w (base64DataOf img) m)
    as [characterId | st e].
  - unfold generateTTS, bind, ret, call.
    destruct (hedraVideos w characterId) as [video_id | st e].
    + destruct (pollHedraVideo_shape w video_id 30 0
                  [HedraCharacter (base64DataOf img) m;
                   HedraVideo characterId placeholderAudio d])
        as [k [rest [Htrace [Hrest Hk]]]].
      exists [HedraCharacter (base64DataOf img) m;
              HedraVideo characterId placeholderAudio d], video_id, k, rest.
      split; [exact Htrace |]. split; [exists characterId; now right |].
      split; assumption.
    + exists [HedraCharacter (base64DataOf img) m;
              HedraVideo characterId placeholderAudio d], None, 0, [].
      split; [now destruct e |]. split; [exists characterId; now right |].
      split; [now left | cbn; lia].
  - exists [HedraCharacter (base64DataOf img) m], None, 0, [].
    split; [now destruct e |]. split; [exists None; now left |].
    split; [now left | cbn; lia].
Qed.

(** X16. The remote calls of a Hedra request are made in a fixed order: the
    character call with the image stripped of its data-URI prefix and the
    model, then at most one video call, which carries the placeholder audio
    link and the direction, then at most 30 polls, each followed by a pause
    of two seconds unless it ends the polling. *)
Theorem hedra_calls_are_ordered (w : World) (r : Request) (n : Normalized) :
  normalize r = Accepted n ->
  JS.strict_eq (provider r) "hedra" = true ->
  hedraOrdered w r n.
Proof.
  intros Hn Hh. unfold hedraOrdered.
  assert (Htrace : snd (postGenerateVideo w r)
                   = snd (generateHedraVideo w (n_scriptText n)
                            (n_direction n) (n_referenceImage n) (country r)
                            (JS.or_string (model r) "character-3")
                            (voiceAccent r) [])).
  { unfold postGenerateVideo. rewrite Hn, (dispatch_hedra w r n Hh).
    now destruct (generateHedraVideo _ _ _ _ _ _ _ _) as [[v | e] trace]. }
  rewrite Htrace. apply generateHedraVideo_shape.
Qed.

(** X8. Whatever the request and the replies of the remote services, one
    request makes at most one Veo submit call, at most 60 Veo polls, at most
    two fetches and at most 30 Hedra polls. *)
Theorem remote_calls_are_bounded (w : World) (r : Request) :
  submitCount (snd (postGenerateVideo w r)) <= 1
  /\ pollCount (snd (postGenerateVideo w r)) <= 60
  /\ fetchCount (snd (postGenerateVideo w r)) <= 2
  /\ hedraPollCount (snd (postGenerateVideo w r)) <= 30.
Proof.
  unfold submitCount, pollCount, fetchCount, hedraPollCount.
  destruct (normalize r) as [n | e] eqn:Hn.
  2: { unfold postGenerateVideo. rewrite Hn. cbn. lia. }
  destruct (JS.strict_eq (provider r) "hedra") eqn:Hh.
  { assert (Htrace : snd (postGenerateVideo w r)
                     = snd (generateHedraVideo w (n_scriptText n)
                              (n_direction n) (n_referenceImage n) (country r)
                              (JS.or_string (model r) "character-3")
                              (voiceAccent r) [])).
    { unfold postGenerateVideo. rewrite Hn, (dispatch_hedra w r n Hh).
      now destruct (generateHedraVideo _ _ _ _ _ _ _ _) as [[v | e] trace]. }
    rewrite Htrace.
    destruct (generateHedraVideo_shape w (n_scriptText n) (n_direction n)
                (n_referenceImage n) (country r)
                (JS.or_string (model r) "character-3") (voiceAccent r))
      as [calls [video_id [k [rest [-> [[cid Hcalls] [Hrest Hk]]]]]]].
    rewrite !count_app, !count_turns.
    destruct Hcalls as [-> | ->]; destruct Hrest as [-> | ->];
      cbn in *; lia. }
  destruct (JS.strict_eq (provider r) "kling") eqn:Hk.
  { rewrite (postGenerateVideo_kling w r n Hn Hk). cbn. lia. }
  assert (Hv : veoPath r = true) by (unfold veoPath; now rewrite Hh, Hk).
  destruct (veo_trace_shape w r Hv)
    as [-> | [n' [tok [proj [op [k [fetches
         [_ [_ [_ [-> [Hk60 [HF [HL _]]]]]]]]]]]]]].
  { cbn. lia. }
  unfold veoTrace.
  change (VeoSubmit ?a ?b ?c :: ?l) with ([VeoSubmit a b c] ++ l)%list.
  rewrite !count_app, !count_turns.
  rewrite (count_other isVeoSubmit isFetch fetches),
    (count_other isVeoPoll isFetch fetches),
    (count_other isHedraPoll isFetch fetches); auto;
    try (intros [] ?; (reflexivity || discriminate)).
  pose proof (count_le isFetch fetches).
  cbn. lia.
Qed.

(** ** The reference image *)

Lemma span_word_spec (s : string) :
  s = fst (span_word s) ++ snd (span_word s)
  /\ all_word (fst (span_word s)) = true.
Proof.
  induction s as [|c s [IH1 IH2]]; [now split |].
  cbn [span_word]. destruct (is_word_char c) eqn:Hc; [| now split].
  destruct (span_word s) as [w r]. cbn in *. split.
  - now rewrite IH1 at 1.
  - now rewrite Hc, IH2.
Qed.

Lemma span_word_app (w rest : string) :
  all_word w = true -> JS.starts_with ";" rest = true ->
  span_word (w ++ rest) = (w, rest).
Proof.
  intros Hw Hrest. induction w as [|c w IH].
  - destruct rest as [|c rest]; [discriminate |].
    cbn [JS.starts_with] in Hrest. apply andb_true_iff in Hrest as [Hc _].
    apply Ascii.eqb_eq in Hc. subst c. reflexivity.
  - cbn in Hw. apply andb_true_iff in Hw as [Hc Hw].
    cbn [append span_word]. now rewrite Hc, (IH Hw).
Qed.

Lemma matchDataImage_form (w rest : string) :
  w <> EmptyString -> all_word w = true ->
  matchDataImage ("data:image/" ++ w ++ ";base64," ++ rest)
  = Some ("image/" ++ w, rest).
Proof.
  intros Hne Hw. unfold matchDataImage.
  change (JS.starts_with "data:image/"
            ("data:image/" ++ w ++ ";base64," ++ rest)) with true.
  change (JS.drop 11 ("data:image/" ++ w ++ ";base64," ++ rest))
    with (w ++ ";base64," ++ rest).
  rewrite (span_word_app w (";base64," ++ rest) Hw eq_refl).
  destruct w as [|c w]; [contradiction |].
  reflexivity.
Qed.

Lemma matchDataImage_inv (s mime rest : string) :
  matchDataImage s = Some (mime, rest) ->
  exists w,
    w <> EmptyString /\ all_word w = true /\ mime = "image/" ++ w
    /\ s = "data:image/" ++ w ++ ";base64," ++ rest.
Proof.
  unfold matchDataImage.
  destruct (JS.starts_with "data:image/" s) eqn:Hp; [| discriminate].
  apply starts_with_inv in Hp. change (String.length "data:image/") with 11 in Hp.
  destruct (span_word_spec (JS.drop 11 s)) as [Hsplit Hw].
  destruct (span_word (JS.drop 11 s)) as [w r]. cbn [fst snd] in *.
  destruct w as [|c w]; [discriminate |].
  destruct (JS.starts_with ";base64," r) eqn:Hb; [| discriminate].
  apply starts_with_inv in Hb. change (String.length ";base64,") with 8 in Hb.
  assert (Hs : s = "data:image/" ++ String c w ++ ";base64," ++ JS.drop 8 r)
    by (rewrite <- Hb, <- Hsplit; exact Hp).
  intros [= <- <-].
  exists (String c w). repeat split; [discriminate | exact Hw | exact Hs].
Qed.

(** X17. The reference image is split at its data-URI prefix: either it is
    the prefix [data:image/], a non-empty run of word characters [w], the
    text [;base64,] and a rest, and then the mime type is [image/] followed
    by [w] and the base64 data is the rest; or it has no such form, and then
    the mime type is [image/png] and the base64 data is the whole string. *)
Theorem reference_image_is_split_at_its_prefix (s : string) :
  (exists w rest,
     w <> EmptyString /\ all_word w = true
     /\ s = "data:image/" ++ w ++ ";base64," ++ rest
     /\ mimeTypeOf s = "image/" ++ w
     /\ base64DataOf s = rest)
  \/ (mimeTypeOf s = "image/png"
      /\ base64DataOf s = s
      /\ forall w rest,
           w <> EmptyString -> all_word w = true ->
           s <> "data:image/" ++ w ++ ";base64," ++ rest).
Proof.
  unfold mimeTypeOf, base64DataOf.
  destruct (matchDataImage s) as [[mime rest]|] eqn:Hm.
  - left. destruct (matchDataImage_inv s mime rest Hm)
      as [w [Hne [Hw [Hmime Hs]]]].
    exists w, rest. now repeat split.
  - right. repeat split. intros w rest Hne Hw Hs.
    rewrite Hs, (matchDataImage_form w rest Hne Hw) in Hm. discriminate.
Qed.

(** ** Base64 text *)

Lemma base64Alphabet_NoDup : NoDup base64Alphabet.
Proof.
  assert (H : nodup ascii_dec base64Alphabet = base64Alphabet)
    by (vm_compute; reflexivity).
  rewrite <- H. apply NoDup_nodup.
Qed.

Lemma sextet_inj (i j : nat) :
  i < 64 -> j < 64 -> sextet i = sextet j -> i = j.
Proof.
  intros Hi Hj. unfold sextet.
  rewrite (Nat.mod_small i 64 Hi), (Nat.mod_small j 64 Hj).
  apply (proj1 (NoDup_nth base64Alphabet "/"%char) base64Alphabet_NoDup);
    assumption.
Qed.

Lemma sextet_not_pad (i : nat) : sextet i <> "="%char.
Proof.
  unfold sextet.
  destruct (nth_in_or_default (i mod 64) base64Alphabet "/"%char)
    as [Hin | ->]; [| discriminate].
  assert (Hall : forallb (fun x => negb (Ascii.eqb "=" x)) base64Alphabet
                 = true) by reflexivity.
  rewrite forallb_forall in Hall. specialize (Hall _ Hin).
  apply negb_true_iff, Ascii.eqb_neq in Hall. congruence.
Qed.

Lemma to_nat_inj (a b : Byte.byte) : Byte.to_nat a = Byte.to_nat b -> a = b.
Proof.
  intros H. pose proof (Byte.of_to_nat a) as Ha.
  rewrite H, Byte.of_to_nat in Ha. congruence.
Qed.

(** The three bytes of a group are determined by its four sextets. *)
Lemma group_inj (a b c a' b' c' : nat) :
  a <= 255 -> b <= 255 -> c <= 255 -> a' <= 255 -> b' <= 255 -> c' <= 255 ->
  a / 4 = a' / 4 ->
  (a mod 4) * 16 + b / 16 = (a' mod 4) * 16 + b' / 16 ->
  (b mod 16) * 4 + c / 64 = (b' mod 16) * 4 + c' / 64 ->
  c mod 64 = c' mod 64 ->
  a = a' /\ b = b' /\ c = c'.
Proof.
  intros Ha Hb Hc Ha' Hb' Hc' H1 H2 H3 H4.
  pose proof (Nat.div_mod_eq a 4). pose proof (Nat.div_mod_eq a' 4).
  pose proof (Nat.div_mod_eq b 16). pose proof (Nat.div_mod_eq b' 16).
  pose proof (Nat.div_mod_eq c 64). pose proof (Nat.div_mod_eq c' 64).
  pose proof (Nat.mod_upper_bound a 4). pose proof (Nat.mod_upper_bound a' 4).
  pose proof (Nat.mod_upper_bound b 16).
  pose proof (Nat.mod_upper_bound b' 16).
  pose proof (Nat.mod_upper_bound c 64).
  pose proof (Nat.mod_upper_bound c' 64).
  lia.
Qed.

Lemma sextet_bounds (a b : nat) (p q : nat) :
  a <= 255 -> b <= 255 ->
  a / 4 < 64 /\ (a mod 4) * 16 + b / 16 < 64
  /\ (a mod 16) * 4 + b / 64 < 64 /\ a mod 64 < 64
  /\ (a mod 4) * 16 < 64 /\ (a mod 16) * 4 < 64.
Proof.
  intros Ha Hb.
  pose proof (Nat.div_mod_eq a 4). pose proof (Nat.div_mod_eq b 16).
  pose proof (Nat.div_mod_eq b 64).
  pose proof (Nat.mod_upper_bound a 4). pose proof (Nat.mod_upper_bound a 16).
  pose proof (Nat.mod_upper_bound a 64).
  lia.
Qed.

Ltac pad_clash :=
  match goal with
  | H : "="%char = sextet _ |- _ => now apply eq_sym, sextet_not_pad in H
  | H : sextet _ = "="%char |- _ => now apply sextet_not_pad in H
  end.

Ltac sextets_eq :=
  repeat match goal with
         | H : sextet ?i = sextet ?j |- _ =>
             apply sextet_inj in H; [| lia | lia]
         end.

Lemma String_inj (a a' : ascii) (s s' : string) :
  String a s = String a' s' -> a = a' /\ s = s'.
Proof. intros H. now injection H. Qed.

Ltac peel :=
  repeat match goal with
         | H : String _ _ = String _ _ |- _ =>
             apply String_inj in H; destruct H
         | H : EmptyString = String _ _ |- _ => discriminate H
         | H : String _ _ = EmptyString |- _ => discriminate H
         end.

Lemma toBase64_inj :
  forall b1 b2, toBase64 b1 = toBase64 b2 -> b1 = b2.
Proof.
  fix IH 1.
  intros [|a1 [|b1 [|c1 r1]]] [|a2 [|b2 [|c2 r2]]]; cbn [toBase64];
    intros H; try discriminate H; try reflexivity;
    unfold pad in H; cbn [append] in H; peel; try pad_clash.
  all: pose proof (Byte.to_nat_bounded a1) as Ba1;
    pose proof (Byte.to_nat_bounded a2) as Ba2.
  - (* one byte *)
    destruct (sextet_bounds (Byte.to_nat a1) 0 0 0 Ba1 (Nat.le_0_l _))
      as [? [_ [_ [_ [? _]]]]].
    destruct (sextet_bounds (Byte.to_nat a2) 0 0 0 Ba2 (Nat.le_0_l _))
      as [? [_ [_ [_ [? _]]]]].
    sextets_eq.
    pose proof (Nat.div_mod_eq (Byte.to_nat a1) 4).
    pose proof (Nat.div_mod_eq (Byte.to_nat a2) 4).
    f_equal. apply to_nat_inj. lia.
  - (* two bytes *)
    pose proof (Byte.to_nat_bounded b1) as Bb1.
    pose proof (Byte.to_nat_bounded b2) as Bb2.
    destruct (sextet_bounds (Byte.to_nat a1) (Byte.to_nat b1) 0 0 Ba1 Bb1)
      as [? [? _]].
    destruct (sextet_bounds (Byte.to_nat a2) (Byte.to_nat b2) 0 0 Ba2 Bb2)
      as [? [? _]].
    destruct (sextet_bounds (Byte.to_nat b1) 0 0 0 Bb1 (Nat.le_0_l _))
      as [_ [_ [_ [_ [_ ?]]]]].
    destruct (sextet_bounds (Byte.to_nat b2) 0 0 0 Bb2 (Nat.le_0_l _))
      as [_ [_ [_ [_ [_ ?]]]]].
    sextets_eq.
    destruct (group_inj (Byte.to_nat a1) (Byte.to_nat b1) 0
                (Byte.to_nat a2) (Byte.to_nat b2) 0) as [Ea [Eb _]];
      change (0 / 64) with 0; change (0 mod 64) with 0; try lia.
    apply to_nat_inj in Ea, Eb. now subst.
  - (* three bytes and more *)
    pose proof (Byte.to_nat_bounded b1) as Bb1.
    pose proof (Byte.to_nat_bounded b2) as Bb2.
    pose proof (Byte.to_nat_bounded c1) as Bc1.
    pose proof (Byte.to_nat_bounded c2) as Bc2.
    destruct (sextet_bounds (Byte.to_nat a1) (Byte.to_nat b1) 0 0 Ba1 Bb1)
      as [? [? _]].
    destruct (sextet_bounds (Byte.to_nat a2) (Byte.to_nat b2) 0 0 Ba2 Bb2)
      as [? [? _]].
    destruct (sextet_bounds (Byte.to_nat b1) (Byte.to_nat c1) 0 0 Bb1 Bc1)
      as [_ [_ [? _]]].
    destruct (sextet_bounds (Byte.to_nat b2) (Byte.to_nat c2) 0 0 Bb2 Bc2)
      as [_ [_ [? _]]].
    destruct (sextet_bounds (Byte.to_nat c1) 0 0 0 Bc1 (Nat.le_0_l _))
      as [_ [_ [_ [? _]]]].
    destruct (sextet_bounds (Byte.to_nat c2) 0 0 0 Bc2 (Nat.le_0_l _))
      as [_ [_ [_ [? _]]]].
    sextets_eq.
    destruct (group_inj (Byte.to_nat a1) (Byte.to_nat b1) (Byte.to_nat c1)
                (Byte.to_nat a2) (Byte.to_nat b2) (Byte.to_nat c2))
      as [Ea [Eb Ec]]; try lia.
    apply to_nat_inj in Ea, Eb, Ec. subst.
    f_equal. f_equal. f_equal. apply IH. assumption.
Qed.

Lemma toBase64_length :
  forall buffer,
    String.length (toBase64 buffer) = 4 * ((List.length buffer + 2) / 3).
Proof.
  fix IH 1. intros [|a [|b [|c rest]]]; cbn [toBase64]; try reflexivity.
  cbn [String.length List.length]. rewrite IH.
  replace (S (S (S (List.length rest))) + 2)
    with (List.length rest + 2 + 1 * 3) by lia.
  rewrite Nat.div_add by discriminate. lia.
Qed.

(** X18. The data URI of a fetched video is faithful: it is the data-URI
    prefix followed by the base64 text of the bytes, from which the handler
    splits out exactly that text; the text has four characters for every
    group of three bytes, the last group being padded; and different bytes
    never give the same text. *)
Theorem fetched_video_data_uri (w : World) (uri : string) (tr : list Event)
    (buffer : list Byte.byte) :
  fetch w uri = FetchOk buffer ->
  fetchVideo w uri tr
  = (Return (Some (dataUriPrefix ++ toBase64 buffer)),
     (tr ++ [Fetch uri])%list)
  /\ base64Of (dataUriPrefix ++ toBase64 buffer) = Some (toBase64 buffer)
  /\ String.length (toBase64 buffer)
     = 4 * ((List.length buffer + 2) / 3)
  /\ (forall buffer', toBase64 buffer' = toBase64 buffer -> buffer' = buffer).
Proof.
  intros Hfetch. repeat split.
  - rewrite fetchVideo_spec. unfold fetched. now rewrite Hfetch.
  - apply base64Of_dataUri, toBase64_comma_free.
  - apply toBase64_length.
  - intros buffer'. apply toBase64_inj.
Qed.

Lemma fetched_video_data_uri_witness :
  fetchVideo storageWorld storedUri []
  = (Return (Some "data:video/mp4;base64,Zm9v"), [Fetch storedUri])
  /\ base64Of "data:video/mp4;base64,Zm9v" = Some "Zm9v"
  /\ String.length (toBase64 fooBytes) = 4
  /\ (forall buffer', toBase64 buffer' = toBase64 fooBytes ->
                      buffer' = fooBytes).
Proof.
  exact (fetched_video_data_uri storageWorld storedUri [] fooBytes eq_refl).
Defined.

(** ** Instances of the further properties *)

Lemma scenario_started (w : World) :
  credentials w [] = (Return ("token", "project"), []) ->
  veoSubmit w (submittedBody (canonicalRequest largeImage) largeNormalized)
  = started ->
  veoStarted w (canonicalRequest largeImage) largeNormalized
    "token" "project" "operations/1".
Proof.
  intros Hsa Hsubmit. unfold veoStarted.
  repeat split; try discriminate.
  - exact Hsa.
  - apply Nat.leb_le. reflexivity.
  - exists (mkOperation (Some "operations/1") None). now split.
Defined.

Lemma first_poll_completes (w : World) (pollData : PollData) :
  veoPoll w 1 = HttpOk pollData -> done pollData = true ->
  poll_error pollData = None ->
  completesAt w 1 pollData.
Proof.
  intros Hpoll Hdone Herror. unfold completesAt.
  repeat split; try assumption; try lia.
Defined.

Lemma storage_reference_answer_witness :
  postGenerateVideo storageWorld (canonicalRequest largeImage)
  = (Json200 (mkVideoResponse true "data:video/mp4;base64,Zm9v"
                (Some "Zm9v") "veo"),
     veoTrace (canonicalRequest largeImage) largeNormalized "token"
       "project" "operations/1" 1 [Fetch storedUri]).
Proof.
  refine (storage_reference_answer storageWorld (canonicalRequest largeImage)
            largeNormalized "token" "project" "operations/1" 1 storedVideo
            storedEntry storedUri fooBytes
            (scenario_started storageWorld eq_refl eq_refl)
            (first_poll_completes storageWorld storedVideo eq_refl eq_refl
               eq_refl)
            eq_refl eq_refl _ eq_refl).
  discriminate.
Defined.

Lemma completed_without_video_is_an_error_witness :
  fst (postGenerateVideo emptyWorld (canonicalRequest largeImage))
  = Json500 "No video data in completed operation"
  /\ pollCount (snd (postGenerateVideo emptyWorld
                       (canonicalRequest largeImage))) = 1.
Proof.
  exact (completed_without_video_is_an_error emptyWorld
           (canonicalRequest largeImage) largeNormalized "token" "project"
           "operations/1" 1 (mkPollData true None None)
           (scenario_started emptyWorld eq_refl eq_refl)
           (first_poll_completes emptyWorld (mkPollData true None None)
              eq_refl eq_refl eq_refl)
           eq_refl eq_refl eq_refl eq_refl).
Defined.

Lemma hedra_polling_times_out_witness :
  fst (pollHedraVideo hedraStalledWorld (Some "video-1") 30 0 [])
  = Throw "Hedra video generation timed out".
Proof.
  refine (f_equal fst
            (proj1 (hedra_polling_times_out hedraStalledWorld
                      (Some "video-1") [] _))).
  intros i _. exists (mkHedraStatus (Some "completed") None).
  repeat split.
Defined.

Lemma hedra_polling_ends_at_first_terminal_reply_witness :
  pollHedraVideo hedraFailingWorld (Some "video-1") 30 0 []
  = (Throw "Hedra video generation failed",
     [HedraPoll (Some "video-1"); Sleep 2000; HedraPoll (Some "video-1")]).
Proof.
  refine (proj1 (proj2 (hedra_polling_ends_at_first_terminal_reply
                          hedraFailingWorld (Some "video-1") 1 [] _ _))
            (mkHedraStatus (Some "failed") None) eq_refl eq_refl eq_refl).
  - lia.
  - intros i Hi. exists (mkHedraStatus (Some "processing") None).
    assert (E : i = 0) by lia. subst i. repeat split.
Defined.

Lemma hedra_creation_failure_is_fatal_witness :
  fst (postGenerateVideo hedraRefusingWorld hedraRequest)
  = Json500 "Hedra init error: bad key".
Proof.
  exact (f_equal fst
           (proj1 (hedra_creation_failure_is_fatal hedraRefusingWorld
                     hedraRequest hedraNormalized eq_refl eq_refl)
              401 (ErrorJson (Some "bad key")) eq_refl)).
Defined.

Lemma hedra_completed_answer_witness :
  fst (postGenerateVideo hedraWorld hedraRequest)
  = Json200 (mkVideoResponse true "https://cdn.hedra.com/video-1.mp4" None
               "hedra").
Proof.
  refine (f_equal fst
            (hedra_completed_answer hedraWorld hedraRequest hedraNormalized
               (Some "character-1") (Some "video-1") 0
               (mkHedraStatus (Some "completed")
                  (Some "https://cdn.hedra.com/video-1.mp4"))
               "https://cdn.hedra.com/video-1.mp4"
               eq_refl eq_refl eq_refl eq_refl _ _ eq_refl eq_refl)).
  - lia.
  - intros i Hi. lia.
Defined.

Lemma kling_always_fails_witness :
  postGenerateVideo scenarioWorld klingRequest
  = (Json500 "KLING_API_KEY not configured", []).
Proof.
  exact (kling_always_fails scenarioWorld klingRequest largeNormalized
           eq_refl eq_refl).
Defined.

Lemma hedra_calls_are_ordered_witness :
  hedraOrdered hedraWorld hedraRequest hedraNormalized.
Proof.
  exact (hedra_calls_are_ordered hedraWorld hedraRequest hedraNormalized
           eq_refl eq_refl).
Defined.
(** ** The Seedream endpoints *)

Lemma fetchGenerated_shape (b : Seedream.Backend)
    (generated : option (list Seedream.Generated))
    (calls : list Seedream.Call) :
  (forall uri calls',
     Seedream.fetchGenerated b generated calls = (inl uri, calls') ->
     exists u buffer,
       Seedream.firstUrl generated = Some u
       /\ Seedream.fetchImage b u = FetchOk buffer
       /\ uri = Seedream.imageUriPrefix ++ toBase64 buffer
       /\ calls' = (calls ++ [Seedream.FetchImage u])%list)
  /\ (forall message calls',
        Seedream.fetchGenerated b generated calls = (inr message, calls') ->
        (Seedream.firstUrl generated = None
         /\ message = "No image in response" /\ calls' = calls)
        \/ exists u,
             Seedream.firstUrl generated = Some u
             /\ calls' = (calls ++ [Seedream.FetchImage u])%list
             /\ (Seedream.fetchImage b u = FetchThrows message
                 \/ exists st,
                      Seedream.fetchImage b u = FetchStatus st
                      /\ message = "Failed to fetch generated image"))
  /\ (exists rest,
        snd (Seedream.fetchGenerated b generated calls) = (calls ++ rest)%list
        /\ List.length rest <= 1).
Proof.
  unfold Seedream.fetchGenerated.
  destruct (Seedream.firstUrl generated) as [u|].
  - destruct (Seedream.fetchImage b u) as [buffer | st | e] eqn:Hf;
      (split; [| split; [| exists [Seedream.FetchImage u]; split;
                             [reflexivity | cbn; lia]]]);
      try discriminate.
    + intros uri calls' [= <- <-]. now exists u, buffer.
    + intros message calls' [= <- <-]. right. exists u.
      repeat split. right. now exists st.
    + intros message calls' [= <- <-]. right. exists u.
      repeat split. now left.
  - split; [discriminate | split].
    + intros message calls' [= <- <-]. now left.
    + exists []. split; [cbn; now rewrite app_nil_r | cbn; lia].
Qed.

Lemma firstUrl_first (first : Seedream.Generated)
    (rest : list Seedream.Generated) (u : string) :
  Seedream.url first = Some u -> u <> EmptyString ->
  Seedream.firstUrl (Some (first :: rest)) = Some u.
Proof.
  intros Hu Hne. cbn [Seedream.firstUrl]. rewrite Hu.
  destruct u; [contradiction | reflexivity].
Qed.

Lemma firstUrl_inv (generated : option (list Seedream.Generated))
    (u : string) :
  Seedream.firstUrl generated = Some u ->
  exists first rest,
    generated = Some (first :: rest) /\ Seedream.url first = Some u
    /\ u <> EmptyString.
Proof.
  destruct generated as [[|first rest]|]; try discriminate.
  cbn [Seedream.firstUrl].
  destruct (Seedream.url first) as [[|c v]|] eqn:Hu; cbn [JS.nonEmpty];
    try discriminate.
  intros [= <-]. exists first, rest.
  split; [reflexivity | split; [exact Hu | discriminate]].
Qed.

(** What follows a generation call that is answered with one image whose
    fetch succeeds. *)
Lemma fetchGenerated_fetched (b : Seedream.Backend)
    (first : Seedream.Generated) (rest : list Seedream.Generated)
    (u : string) (buffer : list Byte.byte) (calls : list Seedream.Call) :
  Seedream.url first = Some u -> u <> EmptyString ->
  Seedream.fetchImage b u = FetchOk buffer ->
  Seedream.fetchGenerated b (Some (first :: rest)) calls
  = (inl ("data:image/jpeg;base64," ++ toBase64 buffer),
     (calls ++ [Seedream.FetchImage u])%list).
Proof.
  intros Hu Hne Hf. unfold Seedream.fetchGenerated.
  now rewrite (firstUrl_first first rest u Hu Hne), Hf.
Qed.







(** The sum of a natural number below 2^53 and one is exact. *)
Lemma add_one_exact (n : N) :
  (n < 2 ^ 53)%N -> JS.add n 1 = (n + 1)%N.
Proof.
  intros H. unfold JS.add.
  destruct (N.eq_dec (n + 1) (2 ^ 53)) as [-> | Hne]; [reflexivity |].
  unfold JS.toDouble.
  assert (Hsize : (N.size (n + 1) <= 53)%N).
  { destruct (N.le_gt_cases (N.size (n + 1)) 53) as [Hle | Hgt];
      [exact Hle | exfalso].
    pose proof (N.size_le (n + 1)) as Hs.
    rewrite N.succ_double_spec in Hs.
    assert (Hpow : (2 ^ 54 <= 2 ^ N.size (n + 1))%N)
      by (apply N.pow_le_mono_r; lia).
    assert (E : (2 ^ 54 = 2 * 2 ^ 53)%N) by reflexivity.
    lia. }
  apply N.leb_le in Hsize. now rewrite Hsize.
Qed.

Lemma angle_references (refImages : option (list string)) :
  match Seedream.given refImages with
  | Some imgs => map Seedream.productReference imgs
  | None => []
  end
  = match refImages with
    | Some imgs =>
        map (fun i => Seedream.mkReference (base64DataOf i) "image/jpeg")
          imgs
    | None => []
    end.
Proof. now destruct refImages as [[|img imgs]|]. Qed.

Lemma seedream_angle_no_call (b : Seedream.Backend)
    (r : Seedream.AngleRequest) :
  (snd (Seedream.generateConsistentAngleSeedream b r) = []
   <-> JS.truthy (Seedream.seedreamKey (Seedream.env b)) = false
       \/ JS.truthy (Seedream.sourceImage r) = false
       \/ Seedream.index r = None
       \/ Seedream.intel r = None
       \/ Seedream.selections r = None)
  /\ List.length (snd (Seedream.generateConsistentAngleSeedream b r)) <= 2.
Proof.
  split.
  all: unfold Seedream.generateConsistentAngleSeedream.
  all: destruct (Seedream.seedreamKey (Seedream.env b)) as [[|k key]|];
    [cbn; try tauto; try lia; try discriminate | |
     cbn; try tauto; try lia; try discriminate].
  all: destruct (Seedream.sourceImage r) as [[|c src]|];
    [cbn; try tauto; try lia; try discriminate | |
     cbn; try tauto; try lia; try discriminate].
  all: destruct (Seedream.index r) as [idx|];
    [| cbn; try tauto; try lia; try discriminate].
  all: destruct (Seedream.intel r) as [i|];
    [| cbn; try tauto; try lia; try discriminate].
  all: destruct (Seedream.selections r) as [s|];
    [| cbn; try tauto; try lia; try discriminate].
  all: cbv zeta; set (body := Seedream.mkBody _ _ _ _ _ _);
    destruct (Seedream.generations b body) as [generated | st text | e]
      eqn:Hg;
    [destruct (fetchGenerated_shape b generated
                 [Seedream.Generate (String k key) body])
       as [Hok [_ [rest [Hcalls Hlen]]]];
     destruct (Seedream.fetchGenerated b generated _)
       as [[uri | message] calls] eqn:Hfetch; cbn [fst snd] in *; subst calls
    | cbn [fst snd] | cbn [fst snd]].
  all: try (split; [discriminate | intros [H | [H | [H | [H | H]]]];
                    discriminate]).
  all: try (cbn; rewrite ?length_app; cbn; lia).
Qed.

(** X20. [/generate-consistent-angle-seedream] makes no remote call exactly
    when the API key, the source image, the index, the intel or the
    selections are missing, and never more than two.  With all of them,
    when the generation call is answered with a first image that has a link
    and the fetch of that link succeeds, the answer is a success: [imageUrl]
    is [data:image/jpeg;base64,] followed by the base64 text of the fetched
    bytes, [angle] is the index plus one in double arithmetic, and the calls
    are the generation call and then that fetch.  The generation call
    carries the key and a body whose prompt is the fixed text around the
    angle prompt of the index (that of the first angle for an index of five
    or more), the scene, the country and the title, and whose references
    are the source image, without its data-URI prefix and with mime type
    image/png, followed by one reference of mime type image/jpeg per
    product image given.  The index plus one is exact for an index below
    2^53, and is 2^53 again for the index 2^53.  Every success arises in
    this way. *)
Theorem seedream_angle_calls (b : Seedream.Backend)
    (r : Seedream.AngleRequest) :
  let version :=
    match Seedream.angle_version r with Some v => v | None => "4.5" end in
  let prompt idx i s :=
    "Generate a new camera angle of the EXACT SAME CHARACTER from the reference image. "
    ++ Seedream.newline
    ++ nth (if (idx <? 5)%N then N.to_nat idx else 0) Seedream.anglePrompts
         EmptyString
    ++ Seedream.newline
    ++ "Setting: " ++ JS.render (Seedream.scene s) ++ " in "
    ++ JS.render (Seedream.country s) ++ "." ++ Seedream.newline
    ++ "Character must be holding or interacting with "
    ++ JS.render (Seedream.title i) ++ "." ++ Seedream.newline
    ++ "Maintain identical face, hair, clothing, and skin texture."
    ++ Seedream.newline
    ++ "Cinematic hyper-realism, 8k quality, natural lighting." in
  let body src idx i s :=
    Seedream.mkBody
      (JS.Own (if String.eqb version "4.5" then "seedream-4-5-251128"
               else "seedream-4-0-250828"))
      (prompt idx i s) 2048 2048 "disabled"
      (Some (Seedream.mkReference (base64DataOf src) "image/png"
             :: match Seedream.angle_refImages r with
                | Some imgs =>
                    map (fun img => Seedream.mkReference (base64DataOf img)
                                      "image/jpeg") imgs
                | None => []
                end)) in
  let succeeds key src idx i s u buffer :=
    Seedream.seedreamKey (Seedream.env b) = Some key /\ key <> EmptyString
    /\ Seedream.sourceImage r = Some src /\ src <> EmptyString
    /\ Seedream.index r = Some idx
    /\ Seedream.intel r = Some i
    /\ Seedream.selections r = Some s
    /\ (exists first rest,
          Seedream.generations b (body src idx i s)
          = Seedream.Replied (Some (first :: rest))
          /\ Seedream.url first = Some u)
    /\ u <> EmptyString
    /\ Seedream.fetchImage b u = FetchOk buffer in
  (snd (Seedream.generateConsistentAngleSeedream b r) = []
   <-> JS.truthy (Seedream.seedreamKey (Seedream.env b)) = false
       \/ JS.truthy (Seedream.sourceImage r) = false
       \/ Seedream.index r = None
       \/ Seedream.intel r = None
       \/ Seedream.selections r = None)
  /\ List.length (snd (Seedream.generateConsistentAngleSeedream b r)) <= 2
  /\ (forall key src idx i s u buffer,
        succeeds key src idx i s u buffer ->
        Seedream.generateConsistentAngleSeedream b r
        = (Seedream.Ok
             (Seedream.mkAngleAnswer
                ("data:image/jpeg;base64," ++ toBase64 buffer)
                ("seedream-" ++ version)
                (if String.eqb version "4.5" then "0.04" else "0.03")
                (JS.add idx 1)),
           [Seedream.Generate key (body src idx i s); Seedream.FetchImage u]))
  /\ (forall idx, (idx < 2 ^ 53)%N -> JS.add idx 1 = (idx + 1)%N)
  /\ JS.add (2 ^ 53) 1 = (2 ^ 53)%N
  /\ (forall answer,
        fst (Seedream.generateConsistentAngleSeedream b r)
        = Seedream.Ok answer ->
        exists key src idx i s u buffer, succeeds key src idx i s u buffer).
Proof.
  intros version prompt body succeeds.
  destruct (seedream_angle_no_call b r) as [Hnone Hle].
  split; [exact Hnone | split; [exact Hle |]].
  assert (Hprompt : forall idx i s,
             Seedream.anglePromptText idx i s = prompt idx i s).
  { intros idx i s. unfold Seedream.anglePromptText, prompt.
    do 2 f_equal. unfold Seedream.anglePrompt, JS.at_index.
    f_equal.
    change (N.of_nat (List.length Seedream.anglePrompts)) with 5%N.
    destruct (idx <? 5)%N eqn:Hidx; [| reflexivity].
    apply N.ltb_lt in Hidx.
    destruct (N.to_nat idx) as [|[|[|[|[|k]]]]] eqn:Hk;
      try reflexivity.
    lia. }
  assert (Hbody : forall src idx i s,
             Seedream.mkBody
               (JS.Own (if String.eqb
                             (defaultTo (Seedream.angle_version r) "4.5")
                             "4.5"
                        then "seedream-4-5-251128"
                        else "seedream-4-0-250828"))
               (Seedream.anglePromptText idx i s) 2048 2048 "disabled"
               (Some (Seedream.mkReference (base64DataOf src) "image/png"
                      :: match Seedream.given (Seedream.angle_refImages r)
                         with
                         | Some imgs => map Seedream.productReference imgs
                         | None => []
                         end))
             = body src idx i s).
  { intros src idx i s. unfold body, version.
    now rewrite Hprompt, angle_references. }
  split; [| split; [exact add_one_exact | split; [reflexivity |]]].
  - intros key src idx i s u buffer
      [Hkey [Hk [Hsrc [Hse [Hidx [Hi [Hs [[first [rest [Hg Hu]]]
                                            [Hue Hf]]]]]]]]].
    unfold Seedream.generateConsistentAngleSeedream.
    rewrite Hkey, Hsrc, Hidx, Hi, Hs.
    destruct key as [|k key]; [contradiction |].
    destruct src as [|c src]; [contradiction |].
    cbv zeta. rewrite Hbody, Hg.
    now rewrite (fetchGenerated_fetched b first rest u buffer _ Hu Hue Hf).
  - intros answer. unfold Seedream.generateConsistentAngleSeedream.
    destruct (Seedream.seedreamKey (Seedream.env b)) as [[|k key]|];
      try discriminate.
    destruct (Seedream.sourceImage r) as [[|c src]|]; try discriminate.
    destruct (Seedream.index r) as [idx|]; [| discriminate].
    destruct (Seedream.intel r) as [i|]; [| discriminate].
    destruct (Seedream.selections r) as [s|]; [| discriminate].
    cbv zeta. rewrite Hbody.
    destruct (Seedream.generations b (body (String c src) idx i s))
      as [generated | st text | e] eqn:Hg; try discriminate.
    destruct (fetchGenerated_shape b generated
                [Seedream.Generate (String k key)
                   (body (String c src) idx i s)])
      as [Hok _].
    destruct (Seedream.fetchGenerated b generated _)
      as [[uri | message] calls] eqn:Hfetch; [| discriminate].
    intros _.
    destruct (Hok uri calls eq_refl) as [u [buffer [Hu [Hf _]]]].
    destruct (firstUrl_inv generated u Hu) as [first [rest [-> [Hurl Hue]]]].
    exists (String k key), (String c src), idx, i, s, u, buffer.
    repeat split; try discriminate; try assumption.
    now exists first, rest.
Qed.

Lemma seedream_angle_calls_witness :
  Seedream.generateConsistentAngleSeedream pictureBackend
    seedreamAngleRequest
  = (Seedream.Ok
       (Seedream.mkAngleAnswer "data:image/jpeg;base64,Zm9v" "seedream-4.5"
          "0.04" 8),
     [Seedream.Generate "byteplus-key"
        (Seedream.mkBody (JS.Own "seedream-4-5-251128")
           ("Generate a new camera angle of the EXACT SAME CHARACTER from the reference image. "
            ++ Seedream.newline
            ++ "Close-up, direct-to-camera portrait. Character looking straight at lens, centered framing, showcasing face and product clearly."
            ++ Seedream.newline
            ++ "Setting: Kitchen in undefined." ++ Seedream.newline
            ++ "Character must be holding or interacting with Cup."
            ++ Seedream.newline
            ++ "Maintain identical face, hair, clothing, and skin texture."
            ++ Seedream.newline
            ++ "Cinematic hyper-realism, 8k quality, natural lighting.")
           2048 2048 "disabled"
           (Some [Seedream.mkReference "abc123" "image/png";
                  Seedream.mkReference "abc123" "image/jpeg"]));
      Seedream.FetchImage "https://cdn.example/image.jpg"]).
Proof.
  refine (proj1 (proj2 (proj2 (seedream_angle_calls pictureBackend
                                 seedreamAngleRequest)))
            "byteplus-key" testImage 7%N (Seedream.mkIntel (Some "Cup"))
            (Seedream.mkSelections (Some "Kitchen") None)
            "https://cdn.example/image.jpg" fooBytes _).
  repeat split; try discriminate.
  eexists. eexists. split; reflexivity.
Defined.

(** X21. A generation call answered with a status outside 200-299 ends
    either Seedream endpoint with that same status, not with 500: the
    answer carries the error made of the status, for the image endpoint
    also the body of the reply as details, and the generation call is the
    only remote call. *)
Theorem seedream_upstream_status_is_passed_through (b : Seedream.Backend)
    (st : nat) (text : string) :
  JS.truthy (Seedream.seedreamKey (Seedream.env b)) = true ->
  (forall body, Seedream.generations b body = Seedream.Refused st text) ->
  (forall r,
     JS.truthy (Seedream.image_prompt r) = true ->
     exists key body,
       Seedream.generateImageSeedream b r
       = (Seedream.Failed
            (Seedream.mkFailure st
               ("Seedream API error: " ++ JS.render_nat st) (Some text)
               (Some "Try /generate-image for Gemini 3 Pro")),
          [Seedream.Generate key body]))
  /\ (forall r,
        JS.truthy (Seedream.sourceImage r) = true ->
        Seedream.index r <> None -> Seedream.intel r <> None ->
        Seedream.selections r <> None ->
        exists key body,
          Seedream.generateConsistentAngleSeedream b r
          = (Seedream.Failed
               (Seedream.mkFailure st
                  ("Seedream API error: " ++ JS.render_nat st) None
                  (Some Seedream.angleFallback)),
             [Seedream.Generate key body])).
Proof.
  intros Hkey Hgen. split.
  - intros r Hp. unfold Seedream.generateImageSeedream.
    destruct (Seedream.seedreamKey (Seedream.env b)) as [[|k key]|];
      try discriminate.
    destruct (Seedream.image_prompt r) as [[|c p]|]; try discriminate.
    cbv zeta. rewrite Hgen. eexists. eexists. reflexivity.
  - intros r Hs Hi Hn Hsel. unfold Seedream.generateConsistentAngleSeedream.
    destruct (Seedream.seedreamKey (Seedream.env b)) as [[|k key]|];
      try discriminate.
    destruct (Seedream.sourceImage r) as [[|c src]|]; try discriminate.
    destruct (Seedream.index r) as [idx|]; [| contradiction].
    destruct (Seedream.intel r) as [i|]; [| contradiction].
    destruct (Seedream.selections r) as [s|]; [| contradiction].
    cbv zeta. rewrite Hgen. eexists. eexists. reflexivity.
Qed.

Lemma seedream_upstream_status_is_passed_through_witness :
  exists key body,
    Seedream.generateImageSeedream busyBackend seedreamImageRequest
    = (Seedream.Failed
         (Seedream.mkFailure 429 "Seedream API error: 429"
            (Some "rate limited")
            (Some "Try /generate-image for Gemini 3 Pro")),
       [Seedream.Generate key body]).
Proof.
  exact (proj1 (seedream_upstream_status_is_passed_through busyBackend 429
                  "rate limited" eq_refl (fun _ => eq_refl))
           seedreamImageRequest eq_refl).
Defined.

(** X22. Every failure answer of [/generate-image-seedream] is of one of
    three kinds: status 400 and no remote call; the status and the text of
    a generation call that was refused, which was then the only call; or
    status 500 with the fallback hint, after at least the generation call.
    With status 500 the error is the message of the exception of the
    generation call, the no-image error when the reply holds no link of a
    first image (and no fetch is made), the failed-fetch error when the
    fetch of that link is answered with a status outside 200-299, or the
    message of the exception of that fetch. *)
Theorem seedream_image_failures (b : Seedream.Backend)
    (r : Seedream.ImageRequest) (failure : Seedream.Failure) :
  fst (Seedream.generateImageSeedream b r) = Seedream.Failed failure ->
  (Seedream.status failure = 400
   /\ snd (Seedream.generateImageSeedream b r) = [])
  \/ (exists key body text,
        snd (Seedream.generateImageSeedream b r) = [Seedream.Generate key body]
        /\ Seedream.generations b body
           = Seedream.Refused (Seedream.status failure) text
        /\ Seedream.details failure = Some text)
  \/ (Seedream.status failure = 500
      /\ Seedream.fallback failure = Some Seedream.endpointFallback
      /\ exists key body,
           (snd (Seedream.generateImageSeedream b r)
            = [Seedream.Generate key body]
            /\ (Seedream.generations b body
                = Seedream.Thrown (Seedream.error failure)
                \/ exists generated,
                     Seedream.generations b body = Seedream.Replied generated
                     /\ Seedream.firstUrl generated = None
                     /\ Seedream.error failure = "No image in response"))
           \/ exists generated u,
                snd (Seedream.generateImageSeedream b r)
                = [Seedream.Generate key body; Seedream.FetchImage u]
                /\ Seedream.generations b body = Seedream.Replied generated
                /\ Seedream.firstUrl generated = Some u
                /\ (Seedream.fetchImage b u
                    = FetchThrows (Seedream.error failure)
                    \/ exists st,
                         Seedream.fetchImage b u = FetchStatus st
                         /\ Seedream.error failure
                            = "Failed to fetch generated image")).
Proof.
  unfold Seedream.generateImageSeedream.
  destruct (Seedream.seedreamKey (Seedream.env b)) as [[|k key]|].
  1, 3: intros [= <-]; left; now split.
  destruct (Seedream.image_prompt r) as [[|c p]|].
  1, 3: intros [= <-]; left; now split.
  cbv zeta.
  set (body := Seedream.mkBody _ _ _ _ _ _).
  destruct (Seedream.generations b body) as [generated | st text | e] eqn:Hg.
  - destruct (fetchGenerated_shape b generated
                [Seedream.Generate (String k key) body])
      as [_ [Hfail _]].
    destruct (Seedream.fetchGenerated b generated _)
      as [[uri | message] calls] eqn:Hfetch; cbn [fst snd]; [discriminate |].
    intros [= <-]. right. right. cbn [Seedream.status Seedream.fallback
                                      Seedream.error].
    split; [reflexivity | split; [reflexivity |]].
    exists (String k key), body.
    destruct (Hfail message calls eq_refl)
      as [[Hu [-> ->]] | [u [Hu [-> Hf]]]].
    + left. split; [reflexivity |]. right. now exists generated.
    + right. exists generated, u. now repeat split.
  - cbn [fst snd]. intros [= <-]. right. left.
    exists (String k key), body, text. now repeat split.
  - cbn [fst snd]. intros [= <-]. right. right.
    split; [reflexivity | split; [reflexivity |]].
    exists (String k key), body. left. split; [reflexivity |]. now left.
Qed.

Lemma seedream_image_failures_witness :
  (Seedream.status
     (Seedream.mkFailure 500 "Failed to fetch generated image" None
        (Some Seedream.endpointFallback)) = 400
   /\ snd (Seedream.generateImageSeedream lostImageBackend
             seedreamImageRequest) = [])
  \/ (exists key body text,
        snd (Seedream.generateImageSeedream lostImageBackend
               seedreamImageRequest) = [Seedream.Generate key body]
        /\ Seedream.generations lostImageBackend body
           = Seedream.Refused 500 text
        /\ None = Some text)
  \/ (500 = 500
      /\ Some Seedream.endpointFallback = Some Seedream.endpointFallback
      /\ exists key body,
           (snd (Seedream.generateImageSeedream lostImageBackend
                   seedreamImageRequest)
            = [Seedream.Generate key body]
            /\ (Seedream.generations lostImageBackend body
                = Seedream.Thrown "Failed to fetch generated image"
                \/ exists generated,
                     Seedream.generations lostImageBackend body
                     = Seedream.Replied generated
                     /\ Seedream.firstUrl generated = None
                     /\ "Failed to fetch generated image"
                        = "No image in response"))
           \/ exists generated u,
                snd (Seedream.generateImageSeedream lostImageBackend
                       seedreamImageRequest)
                = [Seedream.Generate key body; Seedream.FetchImage u]
                /\ Seedream.generations lostImageBackend body
                   = Seedream.Replied generated
                /\ Seedream.firstUrl generated = Some u
                /\ (Seedream.fetchImage lostImageBackend u
                    = FetchThrows "Failed to fetch generated image"
                    \/ exists st,
                         Seedream.fetchImage lostImageBackend u
                         = FetchStatus st
                         /\ "Failed to fetch generated image"
                            = "Failed to fetch generated image")).
Proof.
  exact (seedream_image_failures lostImageBackend seedreamImageRequest
           (Seedream.mkFailure 500 "Failed to fetch generated image" None
              (Some Seedream.endpointFallback))
           eq_refl).
Defined.
